(** * Menu toggle controller (static/script.js)

    A shallow embedding of the page script

<<
    const menuIcon = document.getElementById('menu-icon');
    const nav = document.querySelector('nav');

    menuIcon.addEventListener('click', () => {
        nav.classList.toggle('active');
    });

    document.addEventListener('click', (e) => {
        if (!nav.contains(e.target) && !menuIcon.contains(e.target)) {
            nav.classList.remove('active');
        }
    });
>>

    together with the small part of the DOM it runs against: a node tree,
    element lookup in tree order, [DOMTokenList] toggle and remove,
    [Node.contains], listener registration and bubbling dispatch. *)

From stdpp Require Import base list strings.

Open Scope string_scope.
Open Scope list_scope.

(** ** The DOM tree *)

Module Dom.

(** What the script can observe of an element: its tag (the local name a
    type selector matches), its [id], and the tokens behind [classList], in
    their order.  The script only ever asks which tokens are there.  The
    text of the [class] attribute, which the browser rewrites from the
    tokens on every toggle and remove, is not part of the model: two pages
    that are equal here have the same tokens, not necessarily the same
    attribute text. *)
Record attrs := Attrs {
  localName : string;
  id_attr : string;
  classList : list string
}.

#[local] Unset Elimination Schemes.
Inductive node :=
| Document (kids : list node)
| Element (a : attrs) (kids : list node).
#[local] Set Elimination Schemes.

Definition childNodes (n : node) : list node :=
  match n with
  | Document ks => ks
  | Element _ ks => ks
  end.

Definition node_attrs (n : node) : option attrs :=
  match n with
  | Document _ => None
  | Element a _ => Some a
  end.

(** A reference to a node is its position in the tree, root first: [[]] is
    the document, [i :: p] is position [p] below the [i]-th child.  Two
    references are the same object exactly when the paths are equal. *)
Definition ref := list nat.

Fixpoint lookup_node (p : ref) (n : node) : option node :=
  match p with
  | [] => Some n
  | i :: q =>
      match childNodes n !! i with
      | Some c => lookup_node q c
      | None => None
      end
  end.

Definition attrs_at (n : node) (p : ref) : option attrs :=
  lookup_node p n ≫= node_attrs.

(** In-place update of the attributes of the element at [p]; the shape of
    the tree and every other node are kept. *)
Fixpoint set_attrs (f : attrs → attrs) (p : ref) (n : node) : node :=
  match p with
  | [] =>
      match n with
      | Document ks => Document ks
      | Element a ks => Element (f a) ks
      end
  | i :: q =>
      match n with
      | Document ks => Document (alter (set_attrs f q) i ks)
      | Element a ks => Element a (alter (set_attrs f q) i ks)
      end
  end.

(** [Node.contains(other)]: [other] is an inclusive descendant. *)
Definition contains (el other : ref) : bool :=
  bool_decide (el `prefix_of` other).

(** First element in tree order (preorder) that satisfies [P]. *)
Fixpoint first_match (P : attrs → bool) (n : node) : option ref :=
  let fix scan (ks : list node) (i : nat) : option ref :=
    match ks with
    | [] => None
    | c :: ks' =>
        match first_match P c with
        | Some q => Some (i :: q)
        | None => scan ks' (S i)
        end
    end in
  match n with
  | Document ks => scan ks 0
  | Element a ks => if P a then Some [] else scan ks 0
  end.

(** The inner loop of [first_match], by its own name. *)
Definition scan_children (P : attrs → bool)
  : list node → nat → option ref :=
  fix scan (ks : list node) (i : nat) : option ref :=
    match ks with
    | [] => None
    | c :: ks' =>
        match first_match P c with
        | Some q => Some (i :: q)
        | None => scan ks' (S i)
        end
    end.

(** ** [DOMTokenList] *)

Definition token_in (tok : string) (ts : list string) : bool :=
  bool_decide (tok ∈ ts).

Definition token_remove (tok : string) (ts : list string) : list string :=
  filter (λ t, t ≠ tok) ts.

(** [toggle(token)]: remove the token and answer [false] when it is there,
    append it and answer [true] when it is not. *)
Definition token_toggle (tok : string) (ts : list string)
  : bool * list string :=
  if token_in tok ts then (false, token_remove tok ts)
  else (true, ts ++ [tok]).

Definition with_classes (f : list string → list string) (a : attrs) : attrs :=
  {| localName := localName a; id_attr := id_attr a;
     classList := f (classList a) |}.

End Dom.

(** ** Script state and the monad of script code *)

Module Js.
Import Dom.

(** The two module-level constants of the script; [None] is [null]. *)
Record env := Env {
  menuIcon : option ref;
  nav : option ref
}.

(** The two arrow functions of the script, each closed over the module
    scope it was created in. *)
Inductive closure :=
| IconClick (ρ : env)
| DocumentClick (ρ : env).

Record registration := Registration {
  reg_target : ref;
  reg_type : string;
  reg_callback : closure
}.

Record page := Page {
  dom : node;
  listeners : list registration
}.

Record event := Event {
  type : string;
  target : ref
}.

Inductive exn := TypeError.

Inductive completion (A : Type) :=
| Normal (a : A) (σ : page)
| Throw (e : exn) (σ : page).
Arguments Normal {A} a σ.
Arguments Throw {A} e σ.

Definition final {A} (c : completion A) : page :=
  match c with
  | Normal _ σ => σ
  | Throw _ σ => σ
  end.

Definition js (A : Type) : Type := page → completion A.

Definition ret {A} (a : A) : js A := λ σ, Normal a σ.

Definition bind {A B} (k : A → js B) (m : js A) : js B :=
  λ σ, match m σ with
       | Normal a σ' => k a σ'
       | Throw e σ' => Throw e σ'
       end.

Definition throw {A} (e : exn) : js A := λ σ, Throw e σ.

#[export] Instance js_ret : MRet js := @ret.
#[export] Instance js_bind : MBind js := @bind.

(** Member access on a reference: a [TypeError] on [null]. *)
Definition deref {A} (o : option A) : js A :=
  match o with
  | Some x => ret x
  | None => throw TypeError
  end.

Definition put_attrs (f : attrs → attrs) (el : ref) (σ : page) : page :=
  {| dom := set_attrs f el (dom σ); listeners := listeners σ |}.

Definition update_attrs (f : attrs → attrs) (el : ref) : js unit :=
  λ σ, Normal tt (put_attrs f el σ).

(** [el.classList] of a held reference; only elements have one. *)
Definition get_classList (el : ref) : js (list string) :=
  λ σ, match attrs_at (dom σ) el with
       | Some a => Normal (classList a) σ
       | None => Throw TypeError σ
       end.

(** [document.getElementById(v)] *)
Definition getElementById (v : string) : js (option ref) :=
  λ σ, Normal (first_match (λ a, bool_decide (id_attr a = v)) (dom σ)) σ.

(** [document.querySelector(t)] for a type selector [t]. *)
Definition querySelector (t : string) : js (option ref) :=
  λ σ, Normal (first_match (λ a, bool_decide (localName a = t)) (dom σ)) σ.

(** [el.classList.toggle(tok)] *)
Definition classList_toggle (el : ref) (tok : string) : js bool :=
  ts ← get_classList el ;
  update_attrs (with_classes (λ ts, (token_toggle tok ts).2)) el ;;
  ret (token_toggle tok ts).1.

(** [el.classList.remove(tok)] *)
Definition classList_remove (el : ref) (tok : string) : js unit :=
  get_classList el ;;
  update_attrs (with_classes (token_remove tok)) el.

(** [el.contains(other)] *)
Definition node_contains (el other : ref) : js bool :=
  ret (contains el other).

(** [tgt.addEventListener(ty, cb)] *)
Definition addEventListener (tgt : ref) (ty : string) (cb : closure)
  : js unit :=
  λ σ, Normal tt
    {| dom := dom σ;
       listeners := listeners σ ++ [Registration tgt ty cb] |}.

End Js.

(** ** The script *)

Module Script.
Import Dom Js.

(** The document node itself. *)
Definition document : ref := [].

(** [() => { nav.classList.toggle('active'); }] *)
Definition onIconActivate (ρ : env) (e : event) : js unit :=
  n ← deref (nav ρ);
  classList_toggle n "active" ;;
  ret tt.

(** [(e) => { if (!nav.contains(e.target) && !menuIcon.contains(e.target))
              { nav.classList.remove('active'); } }] *)
Definition onDocumentActivate (ρ : env) (e : event) : js unit :=
  n ← deref (nav ρ);
  inNav ← node_contains n (target e);
  if negb inNav then
    m ← deref (menuIcon ρ);
    inIcon ← node_contains m (target e);
    if negb inIcon then
      n' ← deref (nav ρ);
      classList_remove n' "active"
    else ret tt
  else ret tt.

(** The test the document handler makes on its event's target. *)
Definition outside (n m t : ref) : bool :=
  negb (contains n t) && negb (contains m t).

Definition call (cb : closure) (e : event) : js unit :=
  match cb with
  | IconClick ρ => onIconActivate ρ e
  | DocumentClick ρ => onDocumentActivate ρ e
  end.

(** The top level of the script. *)
Definition script : js env :=
  mi ← getElementById "menu-icon";
  nv ← querySelector "nav";
  let ρ := {| menuIcon := mi; nav := nv |} in
  m ← deref mi;
  addEventListener m "click" (IconClick ρ) ;;
  addEventListener document "click" (DocumentClick ρ) ;;
  ret ρ.

(** *** Event dispatch by the host

    A dispatched event visits its target and then every ancestor up to the
    document.  On each node the listeners registered there for the event's
    type run in registration order.  An exception thrown by a listener is
    reported and does not stop the dispatch. *)

Fixpoint prefixes (p : ref) : list ref :=
  match p with
  | [] => [[]]
  | i :: q => [] :: map (cons i) (prefixes q)
  end.

Definition propagation_path (t : ref) : list ref := reverse (prefixes t).

Definition listens (cur : ref) (ty : string) (r : registration) : bool :=
  bool_decide (reg_target r = cur) && bool_decide (reg_type r = ty).

Definition invoke (e : event) (acc : page * list exn) (r : registration)
  : page * list exn :=
  match call (reg_callback r) e acc.1 with
  | Normal _ σ => (σ, acc.2)
  | Throw x σ => (σ, acc.2 ++ [x])
  end.

Definition visit (e : event) (acc : page * list exn) (cur : ref)
  : page * list exn :=
  foldl (invoke e) acc (filter (λ r, listens cur (type e) r) (listeners acc.1)).

Definition dispatchEvent (e : event) (σ : page) : page * list exn :=
  foldl (visit e) (σ, []) (propagation_path (target e)).

(** A user click on the node [t]. *)
Definition click (t : ref) : event := {| type := "click"; target := t |}.

Definition clicks (ts : list ref) (σ : page) : page :=
  foldl (λ s t, (dispatchEvent (click t) s).1) σ ts.

(** Calling one handler once per event, as the host does; a throwing call
    is reported and the next one still runs. *)
Definition handle (h : event → js unit) (σ : page) (e : event) : page :=
  final (h e σ).

Definition handle_all (h : event → js unit) (es : list event) (σ : page)
  : page :=
  foldl (handle h) σ es.

(** *** The active marker *)

Definition classes_of (σ : page) (el : ref) : list string :=
  match attrs_at (dom σ) el with
  | Some a => classList a
  | None => []
  end.

Definition has_class (σ : page) (el : ref) (tok : string) : bool :=
  token_in tok (classes_of σ el).

(** The marker of the navigation element the script holds. *)
Definition marker (ρ : env) (σ : page) : bool :=
  match nav ρ with
  | Some n => has_class σ n "active"
  | None => false
  end.

End Script.

(** ** The menu as the specification describes it *)

Module Spec.
Import Dom.

Inductive menu := OPEN | CLOSED.

(** The activations the specification tells apart: one that targets or
    bubbles through the icon, one outside both the navigation and the icon
    subtrees, and any other one (inside the navigation, off the icon). *)
Inductive activation :=
| IconActivation
| OutsideActivation
| OtherActivation.

#[export] Instance activation_eq_dec : EqDecision activation.
Proof. solve_decision. Defined.

(** Icon activation toggles; outside activation closes; nothing else is a
    transition. *)
Definition step (s : menu) (a : activation) : menu :=
  match a with
  | IconActivation =>
      match s with
      | CLOSED => OPEN
      | OPEN => CLOSED
      end
  | OutsideActivation => CLOSED
  | OtherActivation => s
  end.

Definition run (tr : list activation) : menu := foldl step CLOSED tr.

Definition present (s : menu) : bool :=
  match s with
  | OPEN => true
  | CLOSED => false
  end.

Definition menu_of (b : bool) : menu := if b then OPEN else CLOSED.

Definition classify (icon nv : ref) (t : ref) : activation :=
  if contains icon t then IconActivation
  else if contains nv t then OtherActivation
  else OutsideActivation.

(** "The menu was last opened by an icon click and not yet dismissed by an
    outside click": some icon activation found the menu closed, no later
    icon activation opened it again, and no outside activation came after
    it. *)
Definition opened_not_dismissed (tr : list activation) : Prop :=
  ∃ pre post,
    tr = pre ++ IconActivation :: post ∧
    run pre = CLOSED ∧
    (∀ post1 post2, post = post1 ++ IconActivation :: post2 →
       run (pre ++ IconActivation :: post1) = OPEN) ∧
    OutsideActivation ∉ post.

(** The same, and the opening icon activation was also the last icon
    activation: no later one toggled the menu closed. *)
Definition opened_not_closed (tr : list activation) : Prop :=
  ∃ pre post,
    tr = pre ++ IconActivation :: post ∧
    run pre = CLOSED ∧
    (∀ post1 post2, post = post1 ++ IconActivation :: post2 →
       run (pre ++ IconActivation :: post1) = OPEN) ∧
    (OutsideActivation ∉ post) ∧
    (IconActivation ∉ post).

End Spec.

(** ** Pages the script has been bound to *)

Module Bound.
Import Dom Js Script.

(** What the top level of the script leaves behind when both lookups
    succeed: the two constants hold elements of the page and the two
    listeners are registered, the icon's first. *)
Record bound (ρ : env) (icon nv : ref) (σ : page) : Prop := Bind {
  bound_root : node_attrs (dom σ) = None;
  bound_icon : menuIcon ρ = Some icon;
  bound_nav : nav ρ = Some nv;
  bound_icon_el : is_Some (attrs_at (dom σ) icon);
  bound_nav_el : is_Some (attrs_at (dom σ) nv);
  bound_listeners :
    listeners σ =
      [Registration icon "click" (IconClick ρ);
       Registration document "click" (DocumentClick ρ)]
}.

(** A page before any script ran: a document over its child nodes. *)
Definition fresh (ks : list node) : page :=
  {| dom := Document ks; listeners := [] |}.

(** The page after [el.classList.toggle(tok)] and after
    [el.classList.remove(tok)] on an element [el]. *)
Definition toggled (tok : string) (el : ref) (σ : page) : page :=
  put_attrs (with_classes (λ ts, (token_toggle tok ts).2)) el σ.

Definition removed (tok : string) (el : ref) (σ : page) : page :=
  put_attrs (with_classes (token_remove tok)) el σ.

(** The classes of [el] other than [tok], in order. *)
Definition other_classes (tok : string) (σ : page) (el : ref) : list string :=
  token_remove tok (classes_of σ el).

(** Between [σ] and [σ'] nothing changed outside the element [n]: the
    listeners, the attributes of every other node, and every subtree that
    does not hold [n]. *)
Definition same_elsewhere (n : ref) (σ σ' : page) : Prop :=
  listeners σ' = listeners σ ∧
  (∀ q, q ≠ n → attrs_at (dom σ') q = attrs_at (dom σ) q) ∧
  (∀ q, contains q n = false →
        lookup_node q (dom σ') = lookup_node q (dom σ)).

(** At the element [n] itself nothing changed but, possibly, the presence
    of [tok] among its classes. *)
Definition same_but_token (tok : string) (n : ref) (σ σ' : page) : Prop :=
  localName <$> attrs_at (dom σ') n = localName <$> attrs_at (dom σ) n ∧
  id_attr <$> attrs_at (dom σ') n = id_attr <$> attrs_at (dom σ) n ∧
  other_classes tok σ' n = other_classes tok σ n ∧
  (∀ t, t ≠ tok → has_class σ' n t = has_class σ n t).

(** The element the script holds as its icon is as it was. *)
Definition icon_unchanged (ρ : env) (σ σ' : page) : Prop :=
  ∀ m, menuIcon ρ = Some m → attrs_at (dom σ') m = attrs_at (dom σ) m.

End Bound.

(** ** Tree order and click counts *)

Module Order.
Import Dom Js Script.

(** [precedes q p]: the node at [q] comes strictly before the node at [p]
    in tree order (preorder, depth first): [q] is a proper ancestor of
    [p], or the two paths part at some child and [q] takes the earlier
    one. *)
Fixpoint precedes (q p : ref) : bool :=
  match q, p with
  | [], [] => false
  | [], _ :: _ => true
  | _ :: _, [] => false
  | i :: q', j :: p' => Nat.ltb i j || (Nat.eqb i j && precedes q' p')
  end.

(** The clicks of a sequence that bubble through [icon]. *)
Definition through (icon : ref) (ts : list ref) : list ref :=
  filter (λ t, contains icon t = true) ts.

(** A click that is dismissed as an outside click. *)
Definition dismisses (icon nv t : ref) : Prop :=
  contains icon t = false ∧ contains nv t = false.

End Order.

(** ** Two small pages *)

Module Example.
Import Dom Js Script Bound.

Definition elt (tag id : string) (cls : list string) (kids : list node)
  : node :=
  Element {| localName := tag; id_attr := id; classList := cls |} kids.

(** A header with the menu icon next to the navigation, and a main area:
<<
    html > body > (header > (div#menu-icon.bx > i, nav.navbar > a), main)
>> *)
Definition page_nodes : list node :=
  [elt "html" "" []
     [elt "body" "" []
        [elt "header" "" ["header"]
           [elt "div" "menu-icon" ["bx"] [elt "i" "" [] []];
            elt "nav" "" ["navbar"] [elt "a" "" [] []]];
         elt "main" "" [] []]]].

Definition icon_ref : ref := [0; 0; 0; 0].
Definition glyph_ref : ref := [0; 0; 0; 0; 0].
Definition nav_ref : ref := [0; 0; 0; 1].
Definition link_ref : ref := [0; 0; 0; 1; 0].
Definition main_ref : ref := [0; 0; 1].

Definition ρ0 : env := {| menuIcon := Some icon_ref; nav := Some nav_ref |}.

(** The page once the script has run. *)
Definition σ0 : page := final (script (fresh page_nodes)).

(** A page whose navigation element itself carries the icon's id:
<<
    nav#menu-icon.navbar
>> *)
Definition alias_nodes : list node :=
  [elt "nav" "menu-icon" ["navbar"] []].

Definition alias_ref : ref := [0].

Definition ρa : env := {| menuIcon := Some alias_ref; nav := Some alias_ref |}.

Definition σa : page := final (script (fresh alias_nodes)).

End Example.

(** A page with the icon and no navigation element:
<<
    div#menu-icon > i
>> *)
Module NoNav.
Import Dom Js Script Bound.

Definition nodes : list node :=
  [Example.elt "div" "menu-icon" [] [Example.elt "i" "" [] []]].

Definition icon_ref : ref := [0].
Definition glyph_ref : ref := [0; 0].

Definition ρ1 : env := {| menuIcon := Some icon_ref; nav := None |}.

Definition σ1 : page := final (script (fresh nodes)).

End NoNav.

(** * Properties *)

Import Dom Js Script Spec Bound Order.

(** ** The tree *)

(** Induction on a node with the property assumed for all its children. *)
Lemma node_ind' (P : node → Prop) :
  (∀ ks, Forall P ks → P (Document ks)) →
  (∀ a ks, Forall P ks → P (Element a ks)) →
  ∀ n, P n.
Proof.
  intros Hdoc Helt. fix IH 1. intros [ks|a ks].
  - apply Hdoc. induction ks as [|c ks IHks]; constructor; [apply IH|done].
  - apply Helt. induction ks as [|c ks IHks]; constructor; [apply IH|done].
Qed.

Lemma lookup_node_app q r n :
  lookup_node (q ++ r) n = lookup_node q n ≫= lookup_node r.
Proof.
  revert n. induction q as [|i q IH]; intros n; [done|].
  cbn. destruct (childNodes n !! i) as [c|]; [apply IH|done].
Qed.

(** [contains el other] says that [other] is reached from [el] by going
    down: the node at [other] is the node found below [el] along the rest
    of the path. *)
Lemma contains_descendant el other n :
  contains el other = true →
  lookup_node other n =
    lookup_node el n ≫= lookup_node (drop (length el) other).
Proof.
  unfold contains. rewrite bool_decide_eq_true. intros [r ->].
  by rewrite lookup_node_app, drop_app_length.
Qed.

Lemma childNodes_set_attrs f i q n :
  childNodes (set_attrs f (i :: q) n) = alter (set_attrs f q) i (childNodes n).
Proof. by destruct n. Qed.

Lemma node_attrs_set_attrs_cons f i q n :
  node_attrs (set_attrs f (i :: q) n) = node_attrs n.
Proof. by destruct n. Qed.

Lemma node_attrs_set_attrs_nil f n :
  node_attrs (set_attrs f [] n) = f <$> node_attrs n.
Proof. by destruct n. Qed.

(** Reading attributes after an update: changed at the updated reference,
    untouched at every other one. *)
Lemma attrs_at_set_attrs f p q n :
  attrs_at (set_attrs f p n) q =
    if decide (q = p) then f <$> attrs_at n q else attrs_at n q.
Proof.
  unfold attrs_at. revert p n.
  induction q as [|j q IH]; intros [|i p] n.
  - cbn [lookup_node]. rewrite decide_True by done.
    cbn. apply node_attrs_set_attrs_nil.
  - cbn [lookup_node]. rewrite decide_False by done.
    cbn. apply node_attrs_set_attrs_cons.
  - rewrite decide_False by done. by destruct n.
  - cbn [lookup_node]. rewrite childNodes_set_attrs.
    destruct (decide (j = i)) as [->|Hji].
    + rewrite list_lookup_alter_eq.
      destruct (childNodes n !! i) as [c|]; cbn.
      * rewrite IH. repeat case_decide; by simplify_eq.
      * by case_decide.
    + rewrite list_lookup_alter_ne by done.
      rewrite decide_False; [done|congruence].
Qed.

(** The subtree below [q] is untouched unless the updated element lies in
    it. *)
Lemma lookup_node_set_attrs f p q n :
  contains q p = false →
  lookup_node q (set_attrs f p n) = lookup_node q n.
Proof.
  unfold contains. rewrite bool_decide_eq_false. revert p n.
  induction q as [|j q IH]; intros p n Hpre.
  - destruct Hpre. apply prefix_nil.
  - destruct p as [|i p]; [by destruct n|].
    cbn [lookup_node]. rewrite childNodes_set_attrs.
    destruct (decide (j = i)) as [->|Hji].
    + rewrite list_lookup_alter_eq.
      destruct (childNodes n !! i) as [c|]; cbn; [|done].
      apply IH. intros Hqp. apply Hpre. by apply prefix_cons.
    + by rewrite list_lookup_alter_ne.
Qed.

(** An update that changes nothing at its element changes nothing. *)
Lemma set_attrs_id f p n :
  (∀ a, attrs_at n p = Some a → f a = a) →
  set_attrs f p n = n.
Proof.
  unfold attrs_at. revert n. induction p as [|i p IH]; intros n Hf.
  - destruct n as [ks|a ks]; cbn; [done|]. f_equal. by apply Hf.
  - assert (alter (set_attrs f p) i (childNodes n) = childNodes n) as Hks.
    { apply list_eq. intros j. destruct (decide (j = i)) as [->|Hji].
      - rewrite list_lookup_alter_eq.
        destruct (childNodes n !! i) as [c|] eqn:Hc; cbn; [|done].
        f_equal. apply IH. intros a Ha. apply Hf. cbn. by rewrite Hc.
      - by rewrite list_lookup_alter_ne. }
    destruct n as [ks|a ks]; cbn in *; by rewrite Hks.
Qed.

Lemma scan_children_Some P ks i p :
  Forall (λ c, ∀ q, first_match P c = Some q →
                 ∃ a, attrs_at c q = Some a ∧ P a = true) ks →
  scan_children P ks i = Some p →
  ∃ j q c a, p = (i + j) :: q ∧ ks !! j = Some c ∧
             attrs_at c q = Some a ∧ P a = true.
Proof.
  intros Hall. revert i. induction Hall as [|c ks Hc _ IH]; intros i; [done|].
  cbn. destruct (first_match P c) as [q|] eqn:Hq.
  - intros [= <-]. destruct (Hc q eq_refl) as (a & Ha & HP).
    exists 0, q, c, a. by rewrite Nat.add_0_r.
  - intros Hs. destruct (IH _ Hs) as (j & q & c' & a & -> & Hj & Ha & HP).
    exists (S j), q, c', a. split_and!; [f_equal; lia|done..].
Qed.

(** A successful lookup answers a reference to an element of the tree that
    satisfies the test. *)
Lemma first_match_Some P n p :
  first_match P n = Some p →
  ∃ a, attrs_at n p = Some a ∧ P a = true.
Proof.
  revert p. induction n as [ks IH|a ks IH] using node_ind'; intros p.
  - change (first_match P (Document ks)) with (scan_children P ks 0).
    intros Hs. destruct (scan_children_Some _ _ _ _ IH Hs)
      as (j & q & c & b & -> & Hj & Hb & HP).
    exists b. split; [|done]. unfold attrs_at in *. cbn. by rewrite Hj.
  - change (first_match P (Element a ks))
      with (if P a then Some [] else scan_children P ks 0).
    destruct (P a) eqn:HPa.
    + intros [= <-]. by exists a.
    + intros Hs. destruct (scan_children_Some _ _ _ _ IH Hs)
        as (j & q & c & b & -> & Hj & Hb & HP).
      exists b. split; [|done]. unfold attrs_at in *. cbn. by rewrite Hj.
Qed.

(** ** Token lists *)

Lemma token_in_true tok ts : token_in tok ts = true ↔ tok ∈ ts.
Proof. apply bool_decide_eq_true. Qed.

Lemma token_in_false tok ts : token_in tok ts = false ↔ tok ∉ ts.
Proof. apply bool_decide_eq_false. Qed.

Lemma token_in_remove tok t ts :
  token_in t (token_remove tok ts) =
    token_in t ts && negb (bool_decide (t = tok)).
Proof.
  apply eq_true_iff_eq. rewrite andb_true_iff, negb_true_iff.
  rewrite !token_in_true, bool_decide_eq_false.
  unfold token_remove. rewrite list_elem_of_filter. tauto.
Qed.

Lemma token_remove_absent tok ts :
  token_in tok ts = false → token_remove tok ts = ts.
Proof.
  rewrite token_in_false. intros Hn. unfold token_remove.
  induction ts as [|t ts IH]; [done|].
  apply not_elem_of_cons in Hn as [Hne Hn].
  rewrite filter_cons_True by done. by rewrite IH.
Qed.

Lemma token_remove_idemp tok ts :
  token_remove tok (token_remove tok ts) = token_remove tok ts.
Proof.
  apply token_remove_absent. rewrite token_in_remove.
  rewrite bool_decide_true by done. apply andb_false_r.
Qed.

Lemma token_remove_app tok ts :
  token_remove tok (ts ++ [tok]) = token_remove tok ts.
Proof.
  unfold token_remove. rewrite filter_app.
  rewrite filter_cons_False by (intros Hn; by apply Hn).
  by rewrite filter_nil, app_nil_r.
Qed.

Lemma token_in_toggle tok ts :
  token_in tok (token_toggle tok ts).2 = negb (token_in tok ts).
Proof.
  unfold token_toggle. destruct (token_in tok ts) eqn:Hin; cbn.
  - rewrite token_in_remove, bool_decide_true by done. apply andb_false_r.
  - apply token_in_true, elem_of_app. right. apply list_elem_of_singleton.
    done.
Qed.

Lemma token_toggle_others tok ts :
  token_remove tok (token_toggle tok ts).2 = token_remove tok ts.
Proof.
  unfold token_toggle. destruct (token_in tok ts); cbn.
  - apply token_remove_idemp.
  - apply token_remove_app.
Qed.

Lemma token_in_others tok t ts ts' :
  token_remove tok ts' = token_remove tok ts → t ≠ tok →
  token_in t ts' = token_in t ts.
Proof.
  intros Heq Hne.
  assert (∀ l, token_in t l = token_in t (token_remove tok l)) as Hl.
  { intros l. rewrite token_in_remove, bool_decide_false by done.
    by rewrite andb_true_r. }
  by rewrite (Hl ts'), (Hl ts), Heq.
Qed.

(** ** Pages *)

Lemma attrs_at_put_attrs f el q σ :
  attrs_at (dom (put_attrs f el σ)) q =
    if decide (q = el) then f <$> attrs_at (dom σ) q else attrs_at (dom σ) q.
Proof. apply attrs_at_set_attrs. Qed.

Lemma is_Some_attrs_at_put_attrs f el q σ :
  is_Some (attrs_at (dom (put_attrs f el σ)) q) ↔
  is_Some (attrs_at (dom σ) q).
Proof.
  rewrite attrs_at_put_attrs. case_decide; [|done].
  by rewrite fmap_is_Some.
Qed.

Lemma classes_of_put_classes f el σ :
  is_Some (attrs_at (dom σ) el) →
  classes_of (put_attrs (with_classes f) el σ) el = f (classes_of σ el).
Proof.
  intros [a Ha]. unfold classes_of.
  rewrite attrs_at_put_attrs, decide_True by done.
  by rewrite Ha.
Qed.

Lemma classes_of_put_attrs_ne f el q σ :
  q ≠ el → classes_of (put_attrs f el σ) q = classes_of σ q.
Proof.
  intros Hne. unfold classes_of.
  by rewrite attrs_at_put_attrs, decide_False.
Qed.

Lemma put_attrs_id f el σ :
  (∀ a, attrs_at (dom σ) el = Some a → f a = a) → put_attrs f el σ = σ.
Proof.
  intros Hf. destruct σ as [d ls]. unfold put_attrs. cbn in *.
  by rewrite set_attrs_id.
Qed.

Lemma removed_absent tok el σ :
  has_class σ el tok = false → removed tok el σ = σ.
Proof.
  unfold has_class, classes_of. intros Habs. apply put_attrs_id.
  intros [t i cs] Ha. rewrite Ha in Habs. cbn in Habs.
  unfold with_classes. cbn [localName id_attr classList].
  by rewrite token_remove_absent.
Qed.

Lemma has_class_toggled tok el σ :
  is_Some (attrs_at (dom σ) el) →
  has_class (toggled tok el σ) el tok = negb (has_class σ el tok).
Proof.
  intros Hel. unfold has_class, toggled.
  rewrite classes_of_put_classes by done. apply token_in_toggle.
Qed.

Lemma has_class_removed tok el σ :
  has_class (removed tok el σ) el tok = false.
Proof.
  unfold has_class, removed, classes_of.
  rewrite attrs_at_put_attrs, decide_True by done.
  destruct (attrs_at (dom σ) el) as [a|]; cbn; [|done].
  rewrite token_in_remove, bool_decide_true by done. apply andb_false_r.
Qed.

(** ** The two handlers, run *)

Lemma onIconActivate_run ρ e σ n :
  nav ρ = Some n → is_Some (attrs_at (dom σ) n) →
  onIconActivate ρ e σ = Normal tt (toggled "active" n σ).
Proof.
  intros Hn [a Ha].
  unfold onIconActivate, classList_toggle, get_classList.
  rewrite Hn. unfold mbind, js_bind, bind. cbn. by rewrite Ha.
Qed.

Lemma onIconActivate_null ρ e σ :
  nav ρ = None → onIconActivate ρ e σ = Throw TypeError σ.
Proof. intros Hn. unfold onIconActivate. by rewrite Hn. Qed.

Lemma onIconActivate_dangling ρ e σ n :
  nav ρ = Some n → attrs_at (dom σ) n = None →
  onIconActivate ρ e σ = Throw TypeError σ.
Proof.
  intros Hn Ha. unfold onIconActivate, classList_toggle, get_classList.
  rewrite Hn. unfold mbind, js_bind, bind. cbn. by rewrite Ha.
Qed.

Lemma onDocumentActivate_run ρ e σ n m :
  nav ρ = Some n → menuIcon ρ = Some m → is_Some (attrs_at (dom σ) n) →
  onDocumentActivate ρ e σ =
    Normal tt (if outside n m (target e) then removed "active" n σ else σ).
Proof.
  intros Hn Hm [a Ha].
  unfold onDocumentActivate, classList_remove, get_classList, outside.
  rewrite Hn, Hm. unfold mbind, js_bind, bind. cbn.
  destruct (contains n (target e)); cbn; [done|].
  destruct (contains m (target e)); cbn; [done|].
  by rewrite Ha.
Qed.

Lemma onDocumentActivate_inside ρ e σ n :
  nav ρ = Some n → contains n (target e) = true →
  onDocumentActivate ρ e σ = Normal tt σ.
Proof.
  intros Hn Hin. unfold onDocumentActivate. rewrite Hn.
  unfold mbind, js_bind, bind. cbn. by rewrite Hin.
Qed.

Lemma onDocumentActivate_null ρ e σ :
  nav ρ = None → onDocumentActivate ρ e σ = Throw TypeError σ.
Proof. intros Hn. unfold onDocumentActivate. by rewrite Hn. Qed.

(** Whatever the constants hold, a handler ends in one of three ways. *)
Lemma onIconActivate_final ρ e σ :
  final (onIconActivate ρ e σ) = σ ∨
  ∃ n, nav ρ = Some n ∧ is_Some (attrs_at (dom σ) n) ∧
       final (onIconActivate ρ e σ) = toggled "active" n σ.
Proof.
  destruct (nav ρ) as [n|] eqn:Hn.
  - destruct (attrs_at (dom σ) n) as [a|] eqn:Ha.
    + right. exists n. split_and!; [done|by eexists|].
      by rewrite (onIconActivate_run _ _ _ n) by (done || by eexists).
    + left. by rewrite (onIconActivate_dangling _ _ _ n).
  - left. by rewrite onIconActivate_null.
Qed.

Lemma onDocumentActivate_final ρ e σ :
  final (onDocumentActivate ρ e σ) = σ ∨
  ∃ n, nav ρ = Some n ∧ is_Some (attrs_at (dom σ) n) ∧
       final (onDocumentActivate ρ e σ) = removed "active" n σ.
Proof.
  unfold onDocumentActivate, classList_remove, get_classList.
  destruct (nav ρ) as [n|] eqn:Hn; [|by left].
  unfold mbind, js_bind, bind. cbn.
  destruct (contains n (target e)); cbn; [by left|].
  destruct (menuIcon ρ) as [m|]; cbn; [|by left].
  destruct (contains m (target e)); cbn; [by left|].
  destruct (attrs_at (dom σ) n) as [a|] eqn:Ha; cbn; [|by left].
  right. exists n. split_and!; [done|by eexists|done].
Qed.

(** ** The top level of the script *)

Lemma script_run ks :
  script (fresh ks) =
    match first_match (λ a, bool_decide (id_attr a = "menu-icon"))
            (Document ks) with
    | Some icon =>
        let ρ := {| menuIcon := Some icon;
                    nav := first_match (λ a, bool_decide (localName a = "nav"))
                             (Document ks) |} in
        Normal ρ
          {| dom := Document ks;
             listeners := [Registration icon "click" (IconClick ρ);
                           Registration document "click" (DocumentClick ρ)] |}
    | None => Throw TypeError (fresh ks)
    end.
Proof.
  unfold script, getElementById, querySelector, fresh.
  unfold mbind, js_bind, bind. cbn [dom listeners].
  by destruct (first_match _ (Document ks)).
Qed.

Lemma script_bound ks ρ σ icon nv :
  script (fresh ks) = Normal ρ σ →
  menuIcon ρ = Some icon → nav ρ = Some nv →
  bound ρ icon nv σ ∧ dom σ = Document ks.
Proof.
  rewrite script_run.
  destruct (first_match _ (Document ks)) as [i|] eqn:Hi; [|done].
  cbn zeta. intros [= <- <-]. cbn [menuIcon nav]. intros [= ->] Hnv.
  split; [|done]. split; cbn [dom listeners menuIcon nav]; [done..| | |done].
  - destruct (first_match_Some _ _ _ Hi) as (a & Ha & _). by exists a.
  - destruct (first_match_Some (λ a, bool_decide (localName a = "nav"))
                (Document ks) nv Hnv) as (a & Ha & _).
    by exists a.
Qed.

Lemma bound_put_attrs ρ icon nv σ f el :
  bound ρ icon nv σ → bound ρ icon nv (put_attrs f el σ).
Proof.
  intros [Hroot Hi Hn Hie Hne Hls]. split; [|done|done| | |done].
  - cbn. destruct el as [|i q].
    + by rewrite node_attrs_set_attrs_nil, Hroot.
    + by rewrite node_attrs_set_attrs_cons.
  - by apply is_Some_attrs_at_put_attrs.
  - by apply is_Some_attrs_at_put_attrs.
Qed.

Lemma bound_icon_ne_document ρ icon nv σ :
  bound ρ icon nv σ → icon ≠ document.
Proof.
  intros [Hroot _ _ [a Ha] _ _] ->. unfold attrs_at in Ha. cbn in Ha.
  by rewrite Hroot in Ha.
Qed.

(** ** Dispatch *)

Lemma elem_of_prefixes q t : q ∈ prefixes t ↔ q `prefix_of` t.
Proof.
  revert q. induction t as [|i t IH]; intros q; cbn.
  - rewrite list_elem_of_singleton. split; [intros ->; done|].
    apply prefix_nil_inv.
  - rewrite elem_of_cons, list_elem_of_fmap. split.
    + intros [->|(q' & -> & Hq')]; [apply prefix_nil|].
      apply prefix_cons, IH, Hq'.
    + destruct q as [|j q]; [by left|]. intros Hpre. right.
      destruct (prefix_cons_inv_1 _ _ _ _ Hpre).
      exists q. split; [done|]. apply IH. by eapply prefix_cons_inv_2.
Qed.

Lemma NoDup_prefixes t : NoDup (prefixes t).
Proof.
  induction t as [|i t IH]; cbn.
  - apply NoDup_singleton.
  - apply NoDup_cons. split.
    + rewrite list_elem_of_fmap. by intros (q & ? & _).
    + apply NoDup_fmap; [|done]. by intros ?? [=].
Qed.

Lemma prefixes_head t : ∃ tl, prefixes t = [] :: tl.
Proof. destruct t; cbn; eauto. Qed.

Section dispatch.
Context (ρ : env) (icon nv : ref).

Let icon_reg := Registration icon "click" (IconClick ρ).
Let doc_reg := Registration document "click" (DocumentClick ρ).

Lemma invoke_icon e acc :
  bound ρ icon nv acc.1 →
  invoke e acc icon_reg = (toggled "active" nv acc.1, acc.2).
Proof.
  intros Hb. unfold invoke. cbn [reg_callback icon_reg call].
  by rewrite (onIconActivate_run _ _ _ nv) by apply Hb.
Qed.

Lemma invoke_document e acc :
  bound ρ icon nv acc.1 →
  invoke e acc doc_reg =
    (if outside nv icon (target e) then removed "active" nv acc.1
     else acc.1, acc.2).
Proof.
  intros Hb. unfold invoke. cbn [reg_callback doc_reg call].
  by rewrite (onDocumentActivate_run _ _ _ nv icon) by apply Hb.
Qed.

Lemma visit_other_type e acc cur :
  bound ρ icon nv acc.1 → type e ≠ "click" → visit e acc cur = acc.
Proof.
  intros Hb Hty. unfold visit. rewrite (bound_listeners _ _ _ _ Hb).
  unfold listens. cbn.
  rewrite !(bool_decide_false ("click" = type e)) by done.
  by rewrite !andb_false_r.
Qed.

Lemma visit_click e acc cur :
  bound ρ icon nv acc.1 → type e = "click" →
  visit e acc cur =
    if decide (cur = icon) then invoke e acc icon_reg
    else if decide (cur = document) then invoke e acc doc_reg
    else acc.
Proof.
  intros Hb Hty. pose proof (bound_icon_ne_document _ _ _ _ Hb) as Hid.
  unfold visit. rewrite (bound_listeners _ _ _ _ Hb).
  unfold listens. cbn. rewrite Hty.
  rewrite !(bool_decide_true ("click" = "click")) by done.
  rewrite !andb_true_r. unfold document in *.
  repeat case_decide; simplify_eq; cbn;
    repeat (first [rewrite bool_decide_true by done
                  |rewrite bool_decide_false by done]); by cbn.
Qed.

Lemma visit_above e acc path :
  bound ρ icon nv acc.1 → type e = "click" →
  NoDup path → document ∉ path →
  foldl (visit e) acc path =
    if bool_decide (icon ∈ path) then invoke e acc icon_reg else acc.
Proof.
  intros Hb Hty Hnd Hdoc. revert acc Hb.
  induction Hnd as [|cur path Hcur Hnd IH]; intros acc Hb; [done|].
  apply not_elem_of_cons in Hdoc as [Hne Hdoc].
  cbn [foldl]. rewrite visit_click by done.
  destruct (decide (cur = icon)) as [->|Hci].
  - rewrite bool_decide_true by left.
    rewrite IH, bool_decide_false; [done..|].
    rewrite invoke_icon by done. by apply bound_put_attrs.
  - rewrite decide_False by done. rewrite IH by done.
    destruct (decide (icon ∈ path)) as [Hin|Hnin].
    + rewrite !bool_decide_true; [done|by right|done].
    + rewrite !bool_decide_false; [done| |done].
      rewrite elem_of_cons. intros [?|?]; by simplify_eq.
Qed.

(** A click reaches the icon's listener when it bubbles through the icon,
    and then always the document's. *)
Lemma dispatch_click t σ :
  bound ρ icon nv σ →
  dispatchEvent (click t) σ =
    (match classify icon nv t with
     | IconActivation => toggled "active" nv σ
     | OutsideActivation => removed "active" nv σ
     | OtherActivation => σ
     end, []).
Proof.
  intros Hb. unfold dispatchEvent, propagation_path. cbn [target click].
  pose proof (NoDup_prefixes t) as Hnd.
  pose proof (elem_of_prefixes icon t) as Hin.
  destruct (prefixes_head t) as [tl Htl]. rewrite Htl in *.
  apply NoDup_cons in Hnd as [Hdoc Hnd].
  rewrite reverse_cons, foldl_app. cbn [foldl].
  rewrite visit_above;
    [|done|done|by rewrite reverse_Permutation|by rewrite elem_of_reverse].
  pose proof (bound_icon_ne_document _ _ _ _ Hb) as Hid.
  unfold document in Hid. rewrite elem_of_cons in Hin.
  unfold classify.
  case_bool_decide as Hmem; rewrite elem_of_reverse in Hmem.
  - assert (contains icon t = true) as Hic.
    { apply bool_decide_eq_true, Hin. by right. }
    rewrite invoke_icon by done.
    rewrite visit_click; [|by apply bound_put_attrs|done].
    rewrite decide_False by done. rewrite decide_True by done.
    rewrite invoke_document by (by apply bound_put_attrs).
    cbn [target click fst snd]. unfold outside. rewrite Hic.
    by destruct (contains nv t).
  - assert (contains icon t = false) as Hic.
    { apply bool_decide_eq_false. rewrite <- Hin. by intros [?|?]. }
    rewrite visit_click by done.
    rewrite decide_False by done. rewrite decide_True by done.
    rewrite invoke_document by done.
    cbn [target click fst snd]. unfold outside. rewrite Hic.
    by destruct (contains nv t).
Qed.

Lemma dispatch_other_type e σ :
  bound ρ icon nv σ → type e ≠ "click" → dispatchEvent e σ = (σ, []).
Proof.
  intros Hb Hty. unfold dispatchEvent.
  induction (propagation_path (target e)) as [|cur path IH]; [done|].
  cbn [foldl]. by rewrite visit_other_type.
Qed.

Lemma bound_dispatch_click t σ :
  bound ρ icon nv σ → bound ρ icon nv (dispatchEvent (click t) σ).1.
Proof.
  intros Hb. rewrite dispatch_click by done. cbn [fst].
  destruct (classify icon nv t); [by apply bound_put_attrs..|done].
Qed.

Lemma bound_clicks ts σ :
  bound ρ icon nv σ → bound ρ icon nv (clicks ts σ).
Proof.
  revert σ. induction ts as [|t ts IH]; intros σ Hb; [done|].
  apply IH. by apply bound_dispatch_click.
Qed.
End dispatch.

(** ** The marker under the two handlers *)

Lemma marker_toggled ρ σ n :
  nav ρ = Some n → is_Some (attrs_at (dom σ) n) →
  marker ρ (toggled "active" n σ) = negb (marker ρ σ).
Proof.
  intros Hn Hel. unfold marker. rewrite Hn. by apply has_class_toggled.
Qed.

Lemma marker_removed ρ σ n :
  nav ρ = Some n → marker ρ (removed "active" n σ) = false.
Proof. intros Hn. unfold marker. rewrite Hn. apply has_class_removed. Qed.

Lemma marker_icon ρ e σ n :
  nav ρ = Some n → is_Some (attrs_at (dom σ) n) →
  marker ρ (handle (onIconActivate ρ) σ e) = negb (marker ρ σ).
Proof.
  intros Hn Hel. unfold handle.
  rewrite (onIconActivate_run _ _ _ n) by done. by apply marker_toggled.
Qed.

Lemma marker_document ρ e σ n m :
  nav ρ = Some n → menuIcon ρ = Some m → is_Some (attrs_at (dom σ) n) →
  marker ρ (handle (onDocumentActivate ρ) σ e) =
    marker ρ σ && negb (outside n m (target e)).
Proof.
  intros Hn Hm Hel. unfold handle.
  rewrite (onDocumentActivate_run _ _ _ n m) by done. cbn [final].
  destruct (outside n m (target e)); cbn.
  - rewrite marker_removed by done. by rewrite andb_false_r.
  - by rewrite andb_true_r.
Qed.

Lemma marker_handle_all_icon ρ n es σ :
  nav ρ = Some n → is_Some (attrs_at (dom σ) n) →
  marker ρ (handle_all (onIconActivate ρ) es σ) =
    xorb (marker ρ σ) (Nat.odd (length es)).
Proof.
  intros Hn. unfold handle_all. revert σ.
  induction es as [|e es IH]; intros σ Hel.
  - cbn. by rewrite xorb_false_r.
  - cbn [foldl length]. rewrite IH.
    + rewrite (marker_icon _ _ _ n) by done.
      rewrite Nat.odd_succ, <- Nat.negb_odd.
      by destruct (marker ρ σ), (Nat.odd (length es)).
    + unfold handle. rewrite (onIconActivate_run _ _ _ n) by done.
      by apply is_Some_attrs_at_put_attrs.
Qed.

(** * The claims *)

(** C1.  Whatever the classes of the navigation element are, the icon
    handler completes without an error, returns nothing, and flips the
    [active] marker: a marker that is there is removed, one that is not is
    appended. *)
Theorem onIconActivate_flips_marker ρ e σ n :
  nav ρ = Some n → is_Some (attrs_at (dom σ) n) →
  ∃ σ', onIconActivate ρ e σ = Normal tt σ' ∧
        marker ρ σ' = negb (marker ρ σ) ∧
        (marker ρ σ = true →
           classes_of σ' n = token_remove "active" (classes_of σ n)) ∧
        (marker ρ σ = false →
           classes_of σ' n = classes_of σ n ++ ["active"]).
Proof.
  intros Hn Hel. exists (toggled "active" n σ).
  split; [by apply onIconActivate_run|].
  split; [by apply marker_toggled|].
  unfold marker, has_class, toggled. rewrite Hn.
  rewrite classes_of_put_classes by done. unfold token_toggle.
  split; intros ->; done.
Qed.

Lemma onIconActivate_flips_marker_witness :
  nav Example.ρ0 = Some Example.nav_ref ∧
  is_Some (attrs_at (dom Example.σ0) Example.nav_ref) ∧
  ∃ σ', onIconActivate Example.ρ0 (click Example.icon_ref) Example.σ0
          = Normal tt σ' ∧
        marker Example.ρ0 σ' = negb (marker Example.ρ0 Example.σ0) ∧
        (marker Example.ρ0 Example.σ0 = true →
           classes_of σ' Example.nav_ref =
             token_remove "active" (classes_of Example.σ0 Example.nav_ref)) ∧
        (marker Example.ρ0 Example.σ0 = false →
           classes_of σ' Example.nav_ref =
             classes_of Example.σ0 Example.nav_ref ++ ["active"]).
Proof.
  assert (is_Some (attrs_at (dom Example.σ0) Example.nav_ref)) as Hel.
  { eexists. vm_compute. reflexivity. }
  split; [reflexivity|]. split; [exact Hel|].
  apply (onIconActivate_flips_marker Example.ρ0 (click Example.icon_ref)
           Example.σ0 Example.nav_ref); [reflexivity|exact Hel].
Defined.

(** C2.  The document handler completes without an error and returns
    nothing; it removes the [active] marker when the target of the event is
    neither inside the navigation element nor inside the icon element, and
    in every other case it leaves the whole page as it was. *)
Theorem onDocumentActivate_removes_iff_outside ρ e σ n m :
  nav ρ = Some n → menuIcon ρ = Some m → is_Some (attrs_at (dom σ) n) →
  ∃ σ', onDocumentActivate ρ e σ = Normal tt σ' ∧
        (contains n (target e) = false ∧ contains m (target e) = false →
           σ' = removed "active" n σ ∧ marker ρ σ' = false) ∧
        (¬ (contains n (target e) = false ∧ contains m (target e) = false) →
           σ' = σ).
Proof.
  intros Hn Hm Hel. eexists. split; [by apply onDocumentActivate_run|].
  unfold outside. split.
  - intros [-> ->]. cbn. split; [done|by apply marker_removed].
  - intros Hno. destruct (contains n (target e)); [done|].
    destruct (contains m (target e)); [done|]. by destruct Hno.
Qed.

Lemma onDocumentActivate_removes_iff_outside_witness :
  nav Example.ρ0 = Some Example.nav_ref ∧
  menuIcon Example.ρ0 = Some Example.icon_ref ∧
  is_Some (attrs_at (dom Example.σ0) Example.nav_ref) ∧
  ∃ σ', onDocumentActivate Example.ρ0 (click Example.main_ref) Example.σ0
          = Normal tt σ' ∧
        (contains Example.nav_ref (target (click Example.main_ref)) = false ∧
         contains Example.icon_ref (target (click Example.main_ref)) = false →
           σ' = removed "active" Example.nav_ref Example.σ0 ∧
           marker Example.ρ0 σ' = false) ∧
        (¬ (contains Example.nav_ref (target (click Example.main_ref))
              = false ∧
            contains Example.icon_ref (target (click Example.main_ref))
              = false) →
           σ' = Example.σ0).
Proof.
  assert (is_Some (attrs_at (dom Example.σ0) Example.nav_ref)) as Hel.
  { eexists. vm_compute. reflexivity. }
  split; [reflexivity|]. split; [reflexivity|]. split; [exact Hel|].
  apply (onDocumentActivate_removes_iff_outside Example.ρ0
           (click Example.main_ref) Example.σ0
           Example.nav_ref Example.icon_ref); [reflexivity..|exact Hel].
Defined.

(** The icon handler on its own, called [N] times from a page whose marker
    is absent, whatever events it is handed: the marker ends present
    exactly when [N] is odd. *)
Lemma icon_activations_parity ρ σ n (N : nat) (es : list event) :
  nav ρ = Some n → is_Some (attrs_at (dom σ) n) →
  marker ρ σ = false → length es = N →
  marker ρ (handle_all (onIconActivate ρ) es σ) = Nat.odd N.
Proof.
  intros Hn Hel Hclosed <-.
  rewrite (marker_handle_all_icon _ n) by done. by rewrite Hclosed.
Qed.

Lemma icon_activations_parity_witness :
  nav Example.ρ0 = Some Example.nav_ref ∧
  is_Some (attrs_at (dom Example.σ0) Example.nav_ref) ∧
  marker Example.ρ0 Example.σ0 = false ∧
  length [click Example.icon_ref; click Example.glyph_ref;
          click Example.icon_ref] = 3 ∧
  marker Example.ρ0
    (handle_all (onIconActivate Example.ρ0)
       [click Example.icon_ref; click Example.glyph_ref;
        click Example.icon_ref] Example.σ0) = Nat.odd 3.
Proof.
  assert (is_Some (attrs_at (dom Example.σ0) Example.nav_ref)) as Hel.
  { eexists. vm_compute. reflexivity. }
  split; [reflexivity|]. split; [exact Hel|].
  split; [vm_compute; reflexivity|]. split; [reflexivity|].
  apply (icon_activations_parity Example.ρ0 Example.σ0 Example.nav_ref 3);
    [reflexivity|exact Hel|vm_compute; reflexivity|reflexivity].
Defined.

(** C6.  With the marker absent, the document handler run on an event whose
    target is outside both the navigation and the icon subtrees completes
    and changes nothing, so the marker is still absent; running it a second
    time on the same event gives the page the first run gave. *)
Theorem outside_click_on_closed_is_noop ρ e σ n m :
  nav ρ = Some n → menuIcon ρ = Some m → is_Some (attrs_at (dom σ) n) →
  contains n (target e) = false → contains m (target e) = false →
  marker ρ σ = false →
  onDocumentActivate ρ e σ = Normal tt σ ∧
  marker ρ (handle (onDocumentActivate ρ) σ e) = false ∧
  handle (onDocumentActivate ρ) (handle (onDocumentActivate ρ) σ e) e =
    handle (onDocumentActivate ρ) σ e.
Proof.
  intros Hn Hm Hel Hnav Hicon Hclosed.
  assert (onDocumentActivate ρ e σ = Normal tt σ) as Hrun.
  { rewrite (onDocumentActivate_run _ _ _ n m) by done.
    unfold outside. rewrite Hnav, Hicon. cbn.
    rewrite removed_absent; [done|]. unfold marker in Hclosed.
    by rewrite Hn in Hclosed. }
  unfold handle. rewrite !Hrun. cbn [final]. by rewrite Hrun.
Qed.

Lemma outside_click_on_closed_is_noop_witness :
  nav Example.ρ0 = Some Example.nav_ref ∧
  menuIcon Example.ρ0 = Some Example.icon_ref ∧
  is_Some (attrs_at (dom Example.σ0) Example.nav_ref) ∧
  contains Example.nav_ref (target (click Example.main_ref)) = false ∧
  contains Example.icon_ref (target (click Example.main_ref)) = false ∧
  marker Example.ρ0 Example.σ0 = false ∧
  onDocumentActivate Example.ρ0 (click Example.main_ref) Example.σ0
    = Normal tt Example.σ0 ∧
  marker Example.ρ0
    (handle (onDocumentActivate Example.ρ0) Example.σ0
       (click Example.main_ref)) = false ∧
  handle (onDocumentActivate Example.ρ0)
    (handle (onDocumentActivate Example.ρ0) Example.σ0
       (click Example.main_ref)) (click Example.main_ref) =
  handle (onDocumentActivate Example.ρ0) Example.σ0
    (click Example.main_ref).
Proof.
  assert (is_Some (attrs_at (dom Example.σ0) Example.nav_ref)) as Hel.
  { eexists. vm_compute. reflexivity. }
  split; [reflexivity|]. split; [reflexivity|]. split; [exact Hel|].
  split; [vm_compute; reflexivity|]. split; [vm_compute; reflexivity|].
  split; [vm_compute; reflexivity|].
  apply (outside_click_on_closed_is_noop Example.ρ0 (click Example.main_ref)
           Example.σ0 Example.nav_ref Example.icon_ref);
    [reflexivity|reflexivity|exact Hel|vm_compute; reflexivity..].
Defined.

(** The second run of the document handler changes nothing in any state,
    open or closed. *)
Lemma onDocumentActivate_idempotent ρ e σ :
  handle (onDocumentActivate ρ) (handle (onDocumentActivate ρ) σ e) e =
    handle (onDocumentActivate ρ) σ e.
Proof.
  unfold handle.
  destruct (onDocumentActivate_final ρ e σ) as [Heq|(n & Hn & Hel & Heq)].
  - by rewrite !Heq.
  - rewrite Heq.
    destruct (onDocumentActivate_final ρ e (removed "active" n σ))
      as [Heq'|(n' & Hn' & _ & Heq')]; rewrite Heq'; [done|].
    assert (n' = n) as -> by congruence.
    apply removed_absent, has_class_removed.
Qed.

(** C8.  Two runs of the icon handler from equal marker states end in equal
    marker states, and so do two runs of the document handler on events
    whose targets stand in the same containment relations to the navigation
    and the icon elements: pages, references and events may differ in
    everything else.  Both runs complete with the same (empty) result. *)
Theorem handlers_deterministic ρ1 ρ2 e1 e2 σ1 σ2 n1 m1 n2 m2 :
  nav ρ1 = Some n1 → menuIcon ρ1 = Some m1 →
  nav ρ2 = Some n2 → menuIcon ρ2 = Some m2 →
  is_Some (attrs_at (dom σ1) n1) → is_Some (attrs_at (dom σ2) n2) →
  marker ρ1 σ1 = marker ρ2 σ2 →
  contains n1 (target e1) = contains n2 (target e2) →
  contains m1 (target e1) = contains m2 (target e2) →
  (∃ σ1' σ2', onIconActivate ρ1 e1 σ1 = Normal tt σ1' ∧
              onIconActivate ρ2 e2 σ2 = Normal tt σ2' ∧
              marker ρ1 σ1' = marker ρ2 σ2') ∧
  (∃ σ1' σ2', onDocumentActivate ρ1 e1 σ1 = Normal tt σ1' ∧
              onDocumentActivate ρ2 e2 σ2 = Normal tt σ2' ∧
              marker ρ1 σ1' = marker ρ2 σ2').
Proof.
  intros Hn1 Hm1 Hn2 Hm2 Hel1 Hel2 Hmk Hnav Hicon. split.
  - do 2 eexists. split; [by apply onIconActivate_run|].
    split; [by apply onIconActivate_run|].
    rewrite !marker_toggled by done. by rewrite Hmk.
  - do 2 eexists. split; [by apply (onDocumentActivate_run _ _ _ n1 m1)|].
    split; [by apply (onDocumentActivate_run _ _ _ n2 m2)|].
    unfold outside. rewrite Hnav, Hicon.
    destruct (negb (contains n2 (target e2)) &&
              negb (contains m2 (target e2))); [|done].
    by rewrite !marker_removed.
Qed.

Lemma handlers_deterministic_witness :
  nav Example.ρ0 = Some Example.nav_ref ∧
  menuIcon Example.ρ0 = Some Example.icon_ref ∧
  nav Example.ρa = Some Example.alias_ref ∧
  menuIcon Example.ρa = Some Example.alias_ref ∧
  is_Some (attrs_at (dom Example.σ0) Example.nav_ref) ∧
  is_Some (attrs_at (dom Example.σa) Example.alias_ref) ∧
  marker Example.ρ0 Example.σ0 = marker Example.ρa Example.σa ∧
  contains Example.nav_ref (target (click Example.main_ref)) =
    contains Example.alias_ref (target (click [1])) ∧
  contains Example.icon_ref (target (click Example.main_ref)) =
    contains Example.alias_ref (target (click [1])) ∧
  (∃ σ1' σ2',
      onIconActivate Example.ρ0 (click Example.main_ref) Example.σ0
        = Normal tt σ1' ∧
      onIconActivate Example.ρa (click [1]) Example.σa = Normal tt σ2' ∧
      marker Example.ρ0 σ1' = marker Example.ρa σ2') ∧
  (∃ σ1' σ2',
      onDocumentActivate Example.ρ0 (click Example.main_ref) Example.σ0
        = Normal tt σ1' ∧
      onDocumentActivate Example.ρa (click [1]) Example.σa = Normal tt σ2' ∧
      marker Example.ρ0 σ1' = marker Example.ρa σ2').
Proof.
  assert (is_Some (attrs_at (dom Example.σ0) Example.nav_ref)) as Hel0.
  { eexists. vm_compute. reflexivity. }
  assert (is_Some (attrs_at (dom Example.σa) Example.alias_ref)) as Hela.
  { eexists. vm_compute. reflexivity. }
  do 4 (split; [reflexivity|]). split; [exact Hel0|]. split; [exact Hela|].
  do 3 (split; [vm_compute; reflexivity|]).
  apply (handlers_deterministic Example.ρ0 Example.ρa
           (click Example.main_ref) (click [1]) Example.σ0 Example.σa
           Example.nav_ref Example.icon_ref
           Example.alias_ref Example.alias_ref);
    [reflexivity|reflexivity|reflexivity|reflexivity|exact Hel0|exact Hela
    |vm_compute; reflexivity..].
Defined.

(** ** The menu of the specification *)

Lemma run_snoc tr a : run (tr ++ [a]) = step (run tr) a.
Proof. unfold run. by rewrite foldl_app. Qed.

Lemma run_app_icon pre post :
  run (pre ++ IconActivation :: post) =
    foldl step (step (run pre) IconActivation) post.
Proof. unfold run. by rewrite foldl_app. Qed.

Lemma foldl_step_other s post :
  OutsideActivation ∉ post → IconActivation ∉ post →
  foldl step s post = s.
Proof.
  revert s. induction post as [|a post IH]; intros s Hout Hicon; [done|].
  apply not_elem_of_cons in Hout as [Ha1 Hout].
  apply not_elem_of_cons in Hicon as [Ha2 Hicon].
  destruct a; [done..|]. cbn. by apply IH.
Qed.

(** The menu is open exactly when an icon activation opened it and neither
    an outside nor an icon activation came after. *)
Lemma opened_not_closed_iff tr : opened_not_closed tr ↔ run tr = OPEN.
Proof.
  split.
  - intros (pre & post & -> & Hpre & _ & Hout & Hicon).
    rewrite run_app_icon, Hpre. cbn. by apply foldl_step_other.
  - induction tr as [|a tr IH] using rev_ind; [done|].
    rewrite run_snoc. destruct a; cbn.
    + destruct (run tr) eqn:Htr; [done|]. intros _.
      exists tr, []. split_and!; [done|done| |apply not_elem_of_nil..].
      intros post1 post2 Hnil. by destruct post1.
    + done.
    + intros Hopen.
      destruct (IH Hopen) as (pre & post & -> & Hpre & _ & Hout & Hicon).
      exists pre, (post ++ [OtherActivation]).
      assert (IconActivation ∉ post ++ [OtherActivation]) as Hicon'.
      { rewrite elem_of_app, list_elem_of_singleton. by intros [?|?]. }
      split_and!; [by rewrite <- app_assoc|done| | |done].
      * intros post1 post2 Heq. destruct Hicon'. rewrite Heq.
        apply elem_of_app. right. left.
      * rewrite elem_of_app, list_elem_of_singleton. by intros [?|?].
Qed.

Section refinement.
Context (ρ : env) (icon nv : ref).

Lemma marker_dispatch_click t σ :
  bound ρ icon nv σ →
  marker ρ (dispatchEvent (click t) σ).1 =
    present (step (menu_of (marker ρ σ)) (classify icon nv t)).
Proof.
  intros Hb. rewrite (dispatch_click ρ icon nv) by done. cbn [fst].
  destruct (classify icon nv t).
  - rewrite marker_toggled by apply Hb. by destruct (marker ρ σ).
  - by rewrite marker_removed by apply Hb.
  - by destruct (marker ρ σ).
Qed.

Lemma marker_clicks ts σ s :
  bound ρ icon nv σ → marker ρ σ = present s →
  marker ρ (clicks ts σ) =
    present (foldl step s (map (classify icon nv) ts)).
Proof.
  revert σ s. induction ts as [|t ts IH]; intros σ s Hb Hs; [done|].
  cbn [clicks foldl map]. apply IH; [by apply bound_dispatch_click|].
  rewrite marker_dispatch_click by done. rewrite Hs. by destruct s.
Qed.
End refinement.

(** C3 (as amended).  On a page the script has run on with both lookups
    successful and the marker absent, after any finite sequence of clicks
    the marker is what the two-state machine says: present exactly when the
    machine, started CLOSED and stepped through the clicks (toggle for a
    click through the icon, close for a click outside both subtrees, no
    change otherwise), is OPEN.  Equivalently, the marker is present exactly
    when an icon click opened the menu and no outside click and no further
    icon click came after it. *)
Theorem clicks_refine_menu ks ρ σ icon nv ts :
  script (fresh ks) = Normal ρ σ →
  menuIcon ρ = Some icon → nav ρ = Some nv →
  marker ρ σ = false →
  marker ρ (clicks ts σ) = present (run (map (classify icon nv) ts)) ∧
  (marker ρ (clicks ts σ) = true ↔
     opened_not_closed (map (classify icon nv) ts)).
Proof.
  intros Hrun Hicon Hnav Hclosed.
  destruct (script_bound _ _ _ _ _ Hrun Hicon Hnav) as [Hb _].
  assert (marker ρ (clicks ts σ) = present (run (map (classify icon nv) ts)))
    as Href by (by apply marker_clicks).
  split; [done|]. rewrite Href, opened_not_closed_iff.
  by destruct (run _).
Qed.

Lemma clicks_refine_menu_witness :
  script (fresh Example.page_nodes) = Normal Example.ρ0 Example.σ0 ∧
  menuIcon Example.ρ0 = Some Example.icon_ref ∧
  nav Example.ρ0 = Some Example.nav_ref ∧
  marker Example.ρ0 Example.σ0 = false ∧
  marker Example.ρ0
    (clicks [Example.glyph_ref; Example.link_ref; Example.main_ref]
       Example.σ0) =
    present (run (map (classify Example.icon_ref Example.nav_ref)
                    [Example.glyph_ref; Example.link_ref; Example.main_ref])) ∧
  (marker Example.ρ0
     (clicks [Example.glyph_ref; Example.link_ref; Example.main_ref]
        Example.σ0) = true ↔
   opened_not_closed
     (map (classify Example.icon_ref Example.nav_ref)
        [Example.glyph_ref; Example.link_ref; Example.main_ref])).
Proof.
  split; [vm_compute; reflexivity|]. split; [reflexivity|].
  split; [reflexivity|]. split; [vm_compute; reflexivity|].
  apply (clicks_refine_menu Example.page_nodes Example.ρ0 Example.σ0
           Example.icon_ref Example.nav_ref);
    [vm_compute; reflexivity|reflexivity|reflexivity|vm_compute; reflexivity].
Defined.

(** C3, as worded.  After two clicks on the icon the menu "was last opened
    by an icon click and not yet dismissed by an outside click", and the
    marker is absent: the second icon click toggled it off. *)
Lemma invariant_as_worded_fails :
  script (fresh Example.page_nodes) = Normal Example.ρ0 Example.σ0 ∧
  marker Example.ρ0 Example.σ0 = false ∧
  ¬ (marker Example.ρ0
       (clicks [Example.icon_ref; Example.icon_ref] Example.σ0) = true ↔
     opened_not_dismissed
       (map (classify Example.icon_ref Example.nav_ref)
          [Example.icon_ref; Example.icon_ref])).
Proof.
  split; [vm_compute; reflexivity|]. split; [vm_compute; reflexivity|].
  intros [_ Hback].
  assert (marker Example.ρ0
            (clicks [Example.icon_ref; Example.icon_ref] Example.σ0) = false)
    as Hoff by (vm_compute; reflexivity).
  rewrite Hback in Hoff; [done|].
  exists [], [IconActivation]. split_and!.
  - vm_compute. reflexivity.
  - reflexivity.
  - intros post1 post2 Heq. destruct post1 as [|a post1].
    + reflexivity.
    + injection Heq as _ Heq. by destruct post1.
  - rewrite list_elem_of_singleton. done.
Qed.

(** C5.  A click on the icon element itself runs both handlers, the icon's
    first; the document handler finds the target inside the icon and does
    nothing, whatever the page; so the click flips the marker, and an open
    menu ends closed. *)
Theorem icon_click_net_toggle ks ρ σ icon :
  script (fresh ks) = Normal ρ σ →
  menuIcon ρ = Some icon → is_Some (nav ρ) →
  dispatchEvent (click icon) σ =
    (final (onDocumentActivate ρ (click icon)
              (final (onIconActivate ρ (click icon) σ))), []) ∧
  (∀ σ', onDocumentActivate ρ (click icon) σ' = Normal tt σ') ∧
  marker ρ (dispatchEvent (click icon) σ).1 = negb (marker ρ σ) ∧
  (marker ρ σ = true → marker ρ (dispatchEvent (click icon) σ).1 = false).
Proof.
  intros Hrun Hicon [nv Hnav].
  destruct (script_bound _ _ _ _ _ Hrun Hicon Hnav) as [Hb _].
  assert (contains icon icon = true) as Hself by by apply bool_decide_eq_true.
  assert (∀ σ', onDocumentActivate ρ (click icon) σ' = Normal tt σ') as Hdoc.
  { intros σ'. unfold onDocumentActivate. rewrite Hnav, Hicon.
    unfold mbind, js_bind, bind. cbn. rewrite Hself.
    by destruct (contains nv icon). }
  assert (dispatchEvent (click icon) σ = (toggled "active" nv σ, [])) as Hd.
  { rewrite (dispatch_click ρ icon nv) by done.
    unfold classify. by rewrite Hself. }
  split_and!; [|done| |].
  - rewrite Hd, Hdoc. cbn [final].
    by rewrite (onIconActivate_run _ _ _ nv) by apply Hb.
  - rewrite Hd. cbn [fst]. apply marker_toggled; [done|apply Hb].
  - intros Hopen. rewrite Hd. cbn [fst].
    rewrite marker_toggled by (done || apply Hb). by rewrite Hopen.
Qed.

Lemma icon_click_net_toggle_witness :
  script (fresh Example.page_nodes) = Normal Example.ρ0 Example.σ0 ∧
  menuIcon Example.ρ0 = Some Example.icon_ref ∧
  is_Some (nav Example.ρ0) ∧
  dispatchEvent (click Example.icon_ref) Example.σ0 =
    (final (onDocumentActivate Example.ρ0 (click Example.icon_ref)
              (final (onIconActivate Example.ρ0 (click Example.icon_ref)
                        Example.σ0))), []) ∧
  (∀ σ', onDocumentActivate Example.ρ0 (click Example.icon_ref) σ'
           = Normal tt σ') ∧
  marker Example.ρ0 (dispatchEvent (click Example.icon_ref) Example.σ0).1 =
    negb (marker Example.ρ0 Example.σ0) ∧
  (marker Example.ρ0 Example.σ0 = true →
   marker Example.ρ0 (dispatchEvent (click Example.icon_ref) Example.σ0).1 =
     false).
Proof.
  split; [vm_compute; reflexivity|]. split; [reflexivity|].
  split; [by eexists|].
  apply (icon_click_net_toggle Example.page_nodes Example.ρ0 Example.σ0
           Example.icon_ref);
    [vm_compute; reflexivity|reflexivity|by eexists].
Defined.

(** ** Listeners that change nothing *)

Lemma invoke_fst e acc r :
  (invoke e acc r).1 = final (call (reg_callback r) e acc.1).
Proof. unfold invoke. by destruct (call (reg_callback r) e acc.1). Qed.

Lemma foldl_invoke_inert e (rs : list registration) acc :
  (∀ r, r ∈ rs → ∀ σ', final (call (reg_callback r) e σ') = σ') →
  (foldl (invoke e) acc rs).1 = acc.1.
Proof.
  revert acc. induction rs as [|r rs IH]; intros acc Hin; [done|].
  cbn [foldl]. rewrite IH.
  - rewrite invoke_fst. apply Hin. left.
  - intros r' Hr'. apply Hin. by right.
Qed.

Lemma dispatch_inert e σ :
  (∀ r, r ∈ listeners σ → ∀ σ', final (call (reg_callback r) e σ') = σ') →
  (dispatchEvent e σ).1 = σ.
Proof.
  intros Hin. unfold dispatchEvent.
  assert (∀ path acc, acc.1 = σ → (foldl (visit e) acc path).1 = σ) as Hpath.
  { induction path as [|cur path IH]; intros acc Hacc; [done|].
    cbn [foldl]. apply IH. unfold visit.
    rewrite foldl_invoke_inert; [done|].
    intros r Hr. apply list_elem_of_filter in Hr as [_ Hr].
    rewrite Hacc in Hr. by apply Hin. }
  by apply Hpath.
Qed.

Lemma Normal_inj {A} (a b : A) σ σ' : Normal a σ = Normal b σ' → a = b.
Proof. by intros [=]. Qed.

(** C7.  When both lookups of the script succeed, the script completes and
    from then on, after any clicks, every invocation of either handler on
    any event completes with no error, and no dispatch reports one.  A
    missing element is the only way to fail, and nothing catches it: with
    the icon missing the script itself stops with a [TypeError] and nothing
    is registered; with only the navigation element missing the script
    completes, every invocation of either handler ends in a [TypeError],
    and no click changes the page. *)
Theorem handlers_fail_only_on_missing_element ks :
  (∀ icon nv,
     getElementById "menu-icon" (fresh ks) = Normal (Some icon) (fresh ks) →
     querySelector "nav" (fresh ks) = Normal (Some nv) (fresh ks) →
     let ρ := {| menuIcon := Some icon; nav := Some nv |} in
     ∃ σ0, script (fresh ks) = Normal ρ σ0 ∧
       ∀ ts e,
         (∃ σ', onIconActivate ρ e (clicks ts σ0) = Normal tt σ') ∧
         (∃ σ', onDocumentActivate ρ e (clicks ts σ0) = Normal tt σ') ∧
         (dispatchEvent e (clicks ts σ0)).2 = []) ∧
  (getElementById "menu-icon" (fresh ks) = Normal None (fresh ks) →
     script (fresh ks) = Throw TypeError (fresh ks)) ∧
  (∀ icon,
     getElementById "menu-icon" (fresh ks) = Normal (Some icon) (fresh ks) →
     querySelector "nav" (fresh ks) = Normal None (fresh ks) →
     let ρ := {| menuIcon := Some icon; nav := None |} in
     ∃ σ0, script (fresh ks) = Normal ρ σ0 ∧
       (∀ e σ, onIconActivate ρ e σ = Throw TypeError σ ∧
               onDocumentActivate ρ e σ = Throw TypeError σ) ∧
       (∀ ts, clicks ts σ0 = σ0)).
Proof.
  unfold getElementById, querySelector. cbn [dom fresh].
  split_and!.
  - intros icon nv Hicon%Normal_inj Hnav%Normal_inj.
    set (ρ := {| menuIcon := Some icon; nav := Some nv |}).
    pose proof (script_run ks) as Hrun. rewrite Hicon, Hnav in Hrun.
    cbn zeta in Hrun. eexists. split; [exact Hrun|].
    destruct (script_bound _ _ _ icon nv Hrun) as [Hb0 _]; [done..|].
    intros ts e. pose proof (bound_clicks _ _ _ ts _ Hb0) as Hb.
    split_and!.
    + eexists. apply (onIconActivate_run _ _ _ nv); [done|apply Hb].
    + eexists. apply (onDocumentActivate_run _ _ _ nv icon);
        [done|done|apply Hb].
    + destruct e as [ty t]. destruct (decide (ty = "click")) as [->|Hty].
      * change (Event "click" t) with (click t).
        by rewrite (dispatch_click ρ icon nv).
      * by rewrite (dispatch_other_type ρ icon nv).
  - intros Hicon%Normal_inj. rewrite script_run. by rewrite Hicon.
  - intros icon Hicon%Normal_inj Hnav%Normal_inj.
    set (ρ := {| menuIcon := Some icon; nav := None |}).
    pose proof (script_run ks) as Hrun. rewrite Hicon, Hnav in Hrun.
    cbn zeta in Hrun. eexists. split; [exact Hrun|].
    assert (∀ e σ, onIconActivate ρ e σ = Throw TypeError σ ∧
                   onDocumentActivate ρ e σ = Throw TypeError σ) as Hthrow.
    { intros e σ. split.
      - by apply onIconActivate_null.
      - by apply onDocumentActivate_null. }
    split; [done|].
    induction ts as [|t ts IH]; [done|]. cbn [clicks foldl].
    rewrite dispatch_inert; [exact IH|].
    cbn [listeners]. intros r Hr σ'.
    apply elem_of_cons in Hr as [->|Hr];
      [|apply list_elem_of_singleton in Hr as ->]; cbn [reg_callback call].
    + by rewrite (proj1 (Hthrow _ _)).
    + by rewrite (proj2 (Hthrow _ _)).
Qed.

Lemma handlers_fail_only_on_missing_element_witness :
  getElementById "menu-icon" (fresh Example.page_nodes)
    = Normal (Some Example.icon_ref) (fresh Example.page_nodes) ∧
  querySelector "nav" (fresh Example.page_nodes)
    = Normal (Some Example.nav_ref) (fresh Example.page_nodes) ∧
  ∃ σ0, script (fresh Example.page_nodes) = Normal Example.ρ0 σ0 ∧
    ∀ ts e,
      (∃ σ', onIconActivate Example.ρ0 e (clicks ts σ0) = Normal tt σ') ∧
      (∃ σ', onDocumentActivate Example.ρ0 e (clicks ts σ0) = Normal tt σ') ∧
      (dispatchEvent e (clicks ts σ0)).2 = [].
Proof.
  split; [vm_compute; reflexivity|]. split; [vm_compute; reflexivity|].
  apply (proj1 (handlers_fail_only_on_missing_element Example.page_nodes)
           Example.icon_ref Example.nav_ref);
    vm_compute; reflexivity.
Defined.

(** ** What an update of the classes of one element leaves alone *)

Lemma same_refl tok n σ : same_elsewhere n σ σ ∧ same_but_token tok n σ σ.
Proof. by repeat split. Qed.

Lemma same_put_classes f tok n σ :
  (∀ ts, token_remove tok (f ts) = token_remove tok ts) →
  same_elsewhere n σ (put_attrs (with_classes f) n σ) ∧
  same_but_token tok n σ (put_attrs (with_classes f) n σ).
Proof.
  intros Hf.
  assert (other_classes tok (put_attrs (with_classes f) n σ) n =
          other_classes tok σ n) as Hothers.
  { unfold other_classes, classes_of.
    rewrite attrs_at_put_attrs, decide_True by done.
    destruct (attrs_at (dom σ) n) as [a|]; cbn; [apply Hf|done]. }
  split; [split_and!|split_and!].
  - done.
  - intros q Hq. by rewrite attrs_at_put_attrs, decide_False.
  - intros q Hq. by apply lookup_node_set_attrs.
  - rewrite attrs_at_put_attrs, decide_True by done.
    by destruct (attrs_at (dom σ) n).
  - rewrite attrs_at_put_attrs, decide_True by done.
    by destruct (attrs_at (dom σ) n).
  - done.
  - intros t Ht. unfold has_class. by apply (token_in_others tok).
Qed.

Lemma same_handle_icon ρ e σ n :
  nav ρ = Some n →
  same_elsewhere n σ (handle (onIconActivate ρ) σ e) ∧
  same_but_token "active" n σ (handle (onIconActivate ρ) σ e).
Proof.
  intros Hn. unfold handle.
  destruct (onIconActivate_final ρ e σ) as [->|(n' & Hn' & _ & ->)].
  - apply same_refl.
  - assert (n' = n) as -> by congruence.
    apply same_put_classes. intros ts. apply token_toggle_others.
Qed.

Lemma same_handle_document ρ e σ n :
  nav ρ = Some n →
  same_elsewhere n σ (handle (onDocumentActivate ρ) σ e) ∧
  same_but_token "active" n σ (handle (onDocumentActivate ρ) σ e).
Proof.
  intros Hn. unfold handle.
  destruct (onDocumentActivate_final ρ e σ) as [->|(n' & Hn' & _ & ->)].
  - apply same_refl.
  - assert (n' = n) as -> by congruence.
    apply same_put_classes. intros ts. apply token_remove_idemp.
Qed.

(** C9 (as amended).  An invocation of either handler changes nothing but
    the presence of [active] among the classes of the navigation element:
    its tag, its id and its other classes, in their order, are kept; so are
    the listeners, the attributes of every other node and every subtree
    that does not hold the navigation element.  In particular the icon
    element is left as it was whenever it is not the navigation element
    itself. *)
Theorem handlers_change_only_the_marker ρ e σ n :
  nav ρ = Some n →
  let after_icon := handle (onIconActivate ρ) σ e in
  let after_document := handle (onDocumentActivate ρ) σ e in
  (same_but_token "active" n σ after_icon ∧
   same_elsewhere n σ after_icon ∧
   (menuIcon ρ ≠ Some n → icon_unchanged ρ σ after_icon)) ∧
  (same_but_token "active" n σ after_document ∧
   same_elsewhere n σ after_document ∧
   (menuIcon ρ ≠ Some n → icon_unchanged ρ σ after_document)).
Proof.
  intros Hn after_icon after_document.
  destruct (same_handle_icon ρ e σ n Hn) as [Hi1 Hi2].
  destruct (same_handle_document ρ e σ n Hn) as [Hd1 Hd2].
  split; (split; [done|]; split; [done|]); intros Hne m Hm.
  - apply Hi1. congruence.
  - apply Hd1. congruence.
Qed.

Lemma handlers_change_only_the_marker_witness :
  nav Example.ρ0 = Some Example.nav_ref ∧
  let after_icon :=
    handle (onIconActivate Example.ρ0) Example.σ0 (click Example.icon_ref) in
  let after_document :=
    handle (onDocumentActivate Example.ρ0) Example.σ0
      (click Example.icon_ref) in
  (same_but_token "active" Example.nav_ref Example.σ0 after_icon ∧
   same_elsewhere Example.nav_ref Example.σ0 after_icon ∧
   (menuIcon Example.ρ0 ≠ Some Example.nav_ref →
    icon_unchanged Example.ρ0 Example.σ0 after_icon)) ∧
  (same_but_token "active" Example.nav_ref Example.σ0 after_document ∧
   same_elsewhere Example.nav_ref Example.σ0 after_document ∧
   (menuIcon Example.ρ0 ≠ Some Example.nav_ref →
    icon_unchanged Example.ρ0 Example.σ0 after_document)).
Proof.
  split; [reflexivity|].
  apply (handlers_change_only_the_marker Example.ρ0 (click Example.icon_ref)
           Example.σ0 Example.nav_ref).
  reflexivity.
Defined.

(** C9, as worded.  On a page whose navigation element carries the id
    [menu-icon] both constants of the script hold that one element, and the
    icon handler changes the classes of the icon element. *)
Lemma icon_changes_when_it_is_the_navigation :
  script (fresh Example.alias_nodes) = Normal Example.ρa Example.σa ∧
  ¬ icon_unchanged Example.ρa Example.σa
      (handle (onIconActivate Example.ρa) Example.σa
         (click Example.alias_ref)).
Proof.
  split; [vm_compute; reflexivity|].
  intros Hsame. specialize (Hsame Example.alias_ref eq_refl).
  vm_compute in Hsame. discriminate Hsame.
Qed.

(** C10.  The document handler never adds the marker: from a page whose
    marker is absent it ends, on any event and however it completes, in a
    page whose marker is absent.  On a page the script is bound to, a
    dispatched event that finds the marker absent and leaves it present is
    a click that bubbled through the icon, so the icon handler ran. *)
Theorem document_handler_never_opens ρ e σ :
  marker ρ σ = false →
  marker ρ (final (onDocumentActivate ρ e σ)) = false ∧
  (∀ ks σ0 ts,
     script (fresh ks) = Normal ρ σ0 → is_Some (nav ρ) →
     σ = clicks ts σ0 →
     marker ρ (dispatchEvent e σ).1 = true →
     type e = "click" ∧
     ∃ icon, menuIcon ρ = Some icon ∧ contains icon (target e) = true).
Proof.
  intros Hclosed. split.
  - destruct (onDocumentActivate_final ρ e σ) as [->|(n & Hn & _ & ->)].
    + done.
    + by apply marker_removed.
  - intros ks σ0 ts Hrun [nv Hnav] -> Hopen.
    assert (∃ icon, menuIcon ρ = Some icon) as [icon Hicon].
    { rewrite script_run in Hrun.
      destruct (first_match _ (Document ks)) as [i|]; [|done].
      injection Hrun as <- _. by eexists. }
    destruct (script_bound _ _ _ _ _ Hrun Hicon Hnav) as [Hb0 _].
    pose proof (bound_clicks _ _ _ ts _ Hb0) as Hb.
    destruct e as [ty t]. cbn [type target].
    destruct (decide (ty = "click")) as [->|Hty].
    + split; [done|]. exists icon. split; [done|].
      change (Event "click" t) with (click t) in Hopen.
      rewrite (marker_dispatch_click ρ icon nv) in Hopen by done.
      rewrite Hclosed in Hopen. unfold classify in Hopen.
      destruct (contains icon t); [done|].
      by destruct (contains nv t).
    + rewrite (dispatch_other_type ρ icon nv) in Hopen by done.
      cbn [fst] in Hopen. congruence.
Qed.

Lemma document_handler_never_opens_witness :
  marker Example.ρ0 Example.σ0 = false ∧
  marker Example.ρ0
    (final (onDocumentActivate Example.ρ0 (click Example.glyph_ref)
              Example.σ0)) = false ∧
  (∀ ks σ0 ts,
     script (fresh ks) = Normal Example.ρ0 σ0 → is_Some (nav Example.ρ0) →
     Example.σ0 = clicks ts σ0 →
     marker Example.ρ0
       (dispatchEvent (click Example.glyph_ref) Example.σ0).1 = true →
     type (click Example.glyph_ref) = "click" ∧
     ∃ icon, menuIcon Example.ρ0 = Some icon ∧
             contains icon (target (click Example.glyph_ref)) = true).
Proof.
  split; [vm_compute; reflexivity|].
  apply (document_handler_never_opens Example.ρ0 (click Example.glyph_ref)
           Example.σ0).
  vm_compute. reflexivity.
Defined.

(** ** Clicks through the icon, and the scenarios of the specification *)

Lemma run_icon_clicks icon nv ts s :
  Forall (λ t, contains icon t = true) ts →
  present (foldl step s (map (classify icon nv) ts)) =
    xorb (present s) (Nat.odd (length ts)).
Proof.
  intros Hall. revert s. induction Hall as [|t ts Ht _ IH]; intros s.
  - cbn. by rewrite xorb_false_r.
  - cbn [map foldl length]. rewrite IH. unfold classify. rewrite Ht.
    rewrite Nat.odd_succ, <- Nat.negb_odd.
    by destruct s, (Nat.odd (length ts)).
Qed.

(** C4.  On a page the script is bound to and whose marker is absent, after
    [N] icon activations and nothing else, that is [N] clicks each
    dispatched to a target inside the icon so that the icon's listener and
    then the document's both run, the marker is present exactly when [N]
    is odd. *)
Theorem icon_clicks_parity ks ρ σ icon (N : nat) (ts : list ref) :
  script (fresh ks) = Normal ρ σ →
  menuIcon ρ = Some icon → is_Some (nav ρ) →
  marker ρ σ = false →
  Forall (λ t, contains icon t = true) ts → length ts = N →
  marker ρ (clicks ts σ) = Nat.odd N.
Proof.
  intros Hrun Hicon [nv Hnav] Hclosed Hall <-.
  destruct (script_bound _ _ _ _ _ Hrun Hicon Hnav) as [Hb _].
  rewrite (marker_clicks ρ icon nv ts σ CLOSED) by done.
  by rewrite run_icon_clicks.
Qed.

Lemma icon_clicks_parity_witness :
  script (fresh Example.page_nodes) = Normal Example.ρ0 Example.σ0 ∧
  menuIcon Example.ρ0 = Some Example.icon_ref ∧
  is_Some (nav Example.ρ0) ∧
  marker Example.ρ0 Example.σ0 = false ∧
  Forall (λ t, contains Example.icon_ref t = true)
    [Example.icon_ref; Example.glyph_ref; Example.icon_ref] ∧
  length [Example.icon_ref; Example.glyph_ref; Example.icon_ref] = 3 ∧
  marker Example.ρ0
    (clicks [Example.icon_ref; Example.glyph_ref; Example.icon_ref]
       Example.σ0) = Nat.odd 3.
Proof.
  assert (Forall (λ t, contains Example.icon_ref t = true)
            [Example.icon_ref; Example.glyph_ref; Example.icon_ref])
    as Hall by (repeat constructor).
  split; [vm_compute; reflexivity|]. split; [reflexivity|].
  split; [by eexists|]. split; [vm_compute; reflexivity|].
  split; [exact Hall|]. split; [reflexivity|].
  apply (icon_clicks_parity Example.page_nodes Example.ρ0 Example.σ0
           Example.icon_ref 3);
    [vm_compute; reflexivity|reflexivity|by eexists
    |vm_compute; reflexivity|exact Hall|reflexivity].
Defined.

(** Closed; icon click: open; outside click: closed; icon click: open;
    click inside the navigation: still open. *)
Example scenario_open_dismiss_reopen :
  map (λ ts, marker Example.ρ0 (clicks ts Example.σ0))
    [[];
     [Example.icon_ref];
     [Example.icon_ref; Example.main_ref];
     [Example.icon_ref; Example.main_ref; Example.icon_ref];
     [Example.icon_ref; Example.main_ref; Example.icon_ref;
      Example.link_ref]]
  = [false; true; false; true; true].
Proof. vm_compute. reflexivity. Qed.

(** Icon click, then a click on the icon again: closed, with the other
    classes of the navigation element as they were. *)
Example scenario_icon_twice :
  marker Example.ρ0
    (clicks [Example.icon_ref; Example.icon_ref] Example.σ0) = false ∧
  classes_of (clicks [Example.icon_ref] Example.σ0) Example.nav_ref
    = ["navbar"; "active"] ∧
  classes_of (clicks [Example.icon_ref; Example.icon_ref] Example.σ0)
    Example.nav_ref = ["navbar"].
Proof. vm_compute. by repeat split. Qed.

(** * Beyond the claims *)

(** ** What the two lookups find *)

Lemma scan_children_None P ks i :
  scan_children P ks i = None ↔ Forall (λ c, first_match P c = None) ks.
Proof.
  revert i. induction ks as [|c ks IH]; intros i; cbn.
  - split; [constructor|done].
  - rewrite Forall_cons. destruct (first_match P c) as [q|] eqn:Hc.
    + split; [done|]. by intros [? _].
    + rewrite IH. tauto.
Qed.

Lemma scan_children_first P ks i p :
  scan_children P ks i = Some p →
  ∃ j r c, p = (i + j) :: r ∧ ks !! j = Some c ∧
           first_match P c = Some r ∧
           ∀ j' c', j' < j → ks !! j' = Some c' → first_match P c' = None.
Proof.
  revert i. induction ks as [|c ks IH]; intros i; [done|]. cbn.
  destruct (first_match P c) as [q|] eqn:Hc.
  - intros [= <-]. exists 0, q, c. rewrite Nat.add_0_r.
    split_and!; [done..|]. intros j' c' Hj'. lia.
  - intros Hs. destruct (IH _ Hs) as (j & r & c0 & -> & Hj & Hr & Hbefore).
    exists (S j), r, c0. split_and!; [f_equal; lia|done..|].
    intros [|j'] c' Hlt Hc'; cbn in Hc'.
    + by injection Hc' as <-.
    + apply (Hbefore j'); [lia|done].
Qed.

Lemma attrs_at_cons n i q :
  attrs_at n (i :: q) = childNodes n !! i ≫= λ c, attrs_at c q.
Proof. unfold attrs_at. cbn. by destruct (childNodes n !! i). Qed.

(** A lookup that answers [null] has looked at every element. *)
Lemma first_match_None P n :
  first_match P n = None →
  ∀ q a, attrs_at n q = Some a → P a = false.
Proof.
  induction n as [ks IH|b ks IH] using node_ind'.
  - change (first_match P (Document ks)) with (scan_children P ks 0).
    rewrite scan_children_None. intros Hnone [|i q] a; [done|].
    rewrite attrs_at_cons. cbn.
    destruct (ks !! i) as [c|] eqn:Hc; [|done]. cbn.
    rewrite Forall_lookup in IH, Hnone.
    apply (IH i c Hc). by apply (Hnone i c).
  - change (first_match P (Element b ks))
      with (if P b then Some [] else scan_children P ks 0).
    destruct (P b) eqn:Hb; [done|].
    rewrite scan_children_None. intros Hnone [|i q] a.
    + unfold attrs_at. cbn. by intros [= <-].
    + rewrite attrs_at_cons. cbn.
      destruct (ks !! i) as [c|] eqn:Hc; [|done]. cbn.
      rewrite Forall_lookup in IH, Hnone.
      apply (IH i c Hc). by apply (Hnone i c).
Qed.

Lemma precedes_nil_r q : precedes q [] = false.
Proof. by destruct q. Qed.

Lemma first_match_children_first P ks p :
  Forall (λ c, ∀ p, first_match P c = Some p →
                 ∀ q a, attrs_at c q = Some a → P a = true →
                        precedes q p = false) ks →
  scan_children P ks 0 = Some p →
  ∀ i q a, ks !! i ≫= (λ c, attrs_at c q) = Some a → P a = true →
           precedes (i :: q) p = false.
Proof.
  intros IH Hs i q a Ha HPa.
  destruct (scan_children_first _ _ _ _ Hs)
    as (j & r & c & -> & Hj & Hr & Hbefore).
  cbn [Nat.add precedes].
  destruct (ks !! i) as [c'|] eqn:Hc'; [|done]. cbn in Ha.
  destruct (Nat.ltb_spec i j) as [Hlt|Hge]; cbn.
  - pose proof (first_match_None P c' (Hbefore i c' Hlt Hc') q a Ha).
    congruence.
  - destruct (Nat.eqb_spec i j) as [->|Hne]; [|done]. cbn.
    assert (c' = c) as -> by congruence.
    rewrite Forall_lookup in IH. by eapply IH.
Qed.

(** A lookup that answers an element answers the first one in tree order:
    no element that satisfies the test comes before it. *)
Lemma first_match_first P n p :
  first_match P n = Some p →
  ∀ q a, attrs_at n q = Some a → P a = true → precedes q p = false.
Proof.
  revert p. induction n as [ks IH|b ks IH] using node_ind'; intros p.
  - change (first_match P (Document ks)) with (scan_children P ks 0).
    intros Hs [|i q] a; [done|]. rewrite attrs_at_cons. cbn.
    by apply first_match_children_first.
  - change (first_match P (Element b ks))
      with (if P b then Some [] else scan_children P ks 0).
    destruct (P b) eqn:Hb.
    + intros [= <-] q a _ _. apply precedes_nil_r.
    + intros Hs [|i q] a.
      * unfold attrs_at. cbn. intros [= <-]. congruence.
      * rewrite attrs_at_cons. cbn. by apply first_match_children_first.
Qed.

Lemma script_constants ks ρ σ :
  script (fresh ks) = Normal ρ σ →
  menuIcon ρ =
    first_match (λ a, bool_decide (id_attr a = "menu-icon")) (Document ks) ∧
  nav ρ =
    first_match (λ a, bool_decide (localName a = "nav")) (Document ks).
Proof.
  rewrite script_run.
  destruct (first_match (λ a, bool_decide (id_attr a = "menu-icon"))
              (Document ks)) as [icon|]; [|done].
  cbn zeta. intros Hρ%Normal_inj. by subst ρ.
Qed.

(** X1.  When the script completes it has left the document as it found
    it and registered exactly two listeners, both for clicks and both
    closed over the same two constants: the icon's on the icon element,
    then the document's on the document.  The icon constant holds an
    element whose id is [menu-icon]; the navigation constant is [null] or
    holds an element whose tag is [nav]. *)
Theorem script_binds_and_registers ks ρ σ :
  script (fresh ks) = Normal ρ σ →
  dom σ = Document ks ∧
  (∃ icon a,
     menuIcon ρ = Some icon ∧
     attrs_at (Document ks) icon = Some a ∧ id_attr a = "menu-icon" ∧
     listeners σ = [Registration icon "click" (IconClick ρ);
                    Registration document "click" (DocumentClick ρ)]) ∧
  (∀ nv, nav ρ = Some nv →
     ∃ b, attrs_at (Document ks) nv = Some b ∧ localName b = "nav").
Proof.
  rewrite script_run.
  destruct (first_match (λ a, bool_decide (id_attr a = "menu-icon"))
              (Document ks)) as [icon|] eqn:Hicon; [|done].
  cbn zeta. intros Hrun. injection Hrun as <- <-. cbn [dom menuIcon nav].
  split_and!; [done| |].
  - destruct (first_match_Some _ _ _ Hicon) as (a & Ha & Hid).
    exists icon, a. split_and!; [done|done| |done].
    by apply bool_decide_eq_true in Hid.
  - intros nv Hnv.
    destruct (first_match_Some (λ a, bool_decide (localName a = "nav"))
                (Document ks) nv Hnv) as (b & Hb & Htag).
    exists b. split; [done|]. by apply bool_decide_eq_true in Htag.
Qed.

Lemma script_binds_and_registers_witness :
  script (fresh Example.page_nodes) = Normal Example.ρ0 Example.σ0 ∧
  dom Example.σ0 = Document Example.page_nodes ∧
  (∃ icon a,
     menuIcon Example.ρ0 = Some icon ∧
     attrs_at (Document Example.page_nodes) icon = Some a ∧
     id_attr a = "menu-icon" ∧
     listeners Example.σ0 =
       [Registration icon "click" (IconClick Example.ρ0);
        Registration document "click" (DocumentClick Example.ρ0)]) ∧
  (∀ nv, nav Example.ρ0 = Some nv →
     ∃ b, attrs_at (Document Example.page_nodes) nv = Some b ∧
          localName b = "nav").
Proof.
  split; [vm_compute; reflexivity|].
  apply (script_binds_and_registers Example.page_nodes Example.ρ0 Example.σ0).
  vm_compute. reflexivity.
Defined.

(** X2.  The script stops with an error exactly when no element of the
    document has the id [menu-icon]; and when it completes, its navigation
    constant is [null] exactly when the document has no [nav] element. *)
Theorem script_fails_iff_no_icon ks :
  ((∃ x σ, script (fresh ks) = Throw x σ) ↔
   ∀ q a, attrs_at (Document ks) q = Some a → id_attr a ≠ "menu-icon") ∧
  (∀ ρ σ, script (fresh ks) = Normal ρ σ →
     (nav ρ = None ↔
      ∀ q a, attrs_at (Document ks) q = Some a → localName a ≠ "nav")).
Proof.
  rewrite script_run. split.
  - destruct (first_match (λ a, bool_decide (id_attr a = "menu-icon"))
                (Document ks)) as [icon|] eqn:Hicon.
    + cbn zeta. split; [by intros (x & σ & ?)|]. intros Hno.
      destruct (first_match_Some _ _ _ Hicon) as (a & Ha & Hid).
      apply bool_decide_eq_true in Hid. by destruct (Hno icon a).
    + split; [|by eauto]. intros _ q a Ha.
      pose proof (first_match_None _ _ Hicon q a Ha) as Hid.
      by apply bool_decide_eq_false in Hid.
  - intros ρ σ Hrun. rewrite <- script_run in Hrun.
    destruct (script_constants _ _ _ Hrun) as [_ Hnav]. rewrite Hnav.
    destruct (first_match (λ a, bool_decide (localName a = "nav"))
                (Document ks)) as [nv|] eqn:Hnv.
    + split; [done|]. intros Hno.
      destruct (first_match_Some _ _ _ Hnv) as (b & Hb & Htag).
      apply bool_decide_eq_true in Htag. by destruct (Hno nv b).
    + split; [|done]. intros _ q a Ha.
      pose proof (first_match_None _ _ Hnv q a Ha) as Htag.
      by apply bool_decide_eq_false in Htag.
Qed.

(** X3.  Where several elements carry the id [menu-icon], or several are
    [nav] elements, the script holds the first of them in tree order: no
    element with that id comes before the icon it holds, and no [nav]
    element before the navigation element it holds. *)
Theorem script_binds_first_in_tree_order ks ρ σ :
  script (fresh ks) = Normal ρ σ →
  (∀ icon q a, menuIcon ρ = Some icon →
     attrs_at (Document ks) q = Some a → id_attr a = "menu-icon" →
     precedes q icon = false) ∧
  (∀ nv q a, nav ρ = Some nv →
     attrs_at (Document ks) q = Some a → localName a = "nav" →
     precedes q nv = false).
Proof.
  intros Hrun. destruct (script_constants _ _ _ Hrun) as [Hicon Hnav].
  split.
  - intros icon q a Hi Ha Hid. rewrite Hi in Hicon.
    apply (first_match_first _ _ _ (eq_sym Hicon) q a Ha).
    by apply bool_decide_eq_true.
  - intros nv q a Hn Ha Htag. rewrite Hn in Hnav.
    apply (first_match_first _ _ _ (eq_sym Hnav) q a Ha).
    by apply bool_decide_eq_true.
Qed.

Lemma script_binds_first_in_tree_order_witness :
  script (fresh Example.page_nodes) = Normal Example.ρ0 Example.σ0 ∧
  (∀ icon q a, menuIcon Example.ρ0 = Some icon →
     attrs_at (Document Example.page_nodes) q = Some a →
     id_attr a = "menu-icon" → precedes q icon = false) ∧
  (∀ nv q a, nav Example.ρ0 = Some nv →
     attrs_at (Document Example.page_nodes) q = Some a →
     localName a = "nav" → precedes q nv = false).
Proof.
  split; [vm_compute; reflexivity|].
  apply (script_binds_first_in_tree_order Example.page_nodes Example.ρ0
           Example.σ0).
  vm_compute. reflexivity.
Defined.

(** ** What no listener call changes *)

Lemma call_final_cases cb e σ :
  final (call cb e σ) = σ ∨
  ∃ g n, final (call cb e σ) = put_attrs (with_classes g) n σ.
Proof.
  destruct cb as [ρ|ρ]; cbn [call].
  - destruct (onIconActivate_final ρ e σ) as [Heq|(n & _ & _ & Heq)];
      [by left|right]. by exists (λ ts, (token_toggle "active" ts).2), n.
  - destruct (onDocumentActivate_final ρ e σ) as [Heq|(n & _ & _ & Heq)];
      [by left|right]. by exists (token_remove "active"), n.
Qed.

Section preserved.
Context {X : Type} (obs : page → X).
Hypothesis obs_put_classes :
  ∀ g n σ, obs (put_attrs (with_classes g) n σ) = obs σ.

Lemma call_preserves cb e σ : obs (final (call cb e σ)) = obs σ.
Proof.
  destruct (call_final_cases cb e σ) as [->|(g & n & ->)]; [done|].
  apply obs_put_classes.
Qed.

Lemma foldl_invoke_preserves e (rs : list registration) acc :
  obs (foldl (invoke e) acc rs).1 = obs acc.1.
Proof.
  revert acc. induction rs as [|r rs IH]; intros acc; [done|].
  cbn [foldl]. rewrite IH, invoke_fst. apply call_preserves.
Qed.

Lemma dispatch_preserves e σ : obs (dispatchEvent e σ).1 = obs σ.
Proof.
  unfold dispatchEvent.
  assert (∀ path acc, obs (foldl (visit e) acc path).1 = obs acc.1) as Hpath.
  { induction path as [|cur path IH]; intros acc; [done|].
    cbn [foldl]. rewrite IH. unfold visit. apply foldl_invoke_preserves. }
  apply Hpath.
Qed.

Lemma clicks_preserve ts σ : obs (clicks ts σ) = obs σ.
Proof.
  unfold clicks. revert σ. induction ts as [|t ts IH]; intros σ; [done|].
  cbn [foldl]. rewrite IH. apply dispatch_preserves.
Qed.
End preserved.

Lemma listeners_clicks ts σ : listeners (clicks ts σ) = listeners σ.
Proof. by apply clicks_preserve. Qed.

Lemma scan_children_alter P f q ks i k :
  Forall (λ c, ∀ p, first_match P (set_attrs f p c) = first_match P c) ks →
  scan_children P (alter (set_attrs f q) i ks) k = scan_children P ks k.
Proof.
  intros Hall. revert i k.
  induction Hall as [|c ks Hc _ IH]; intros i k; [done|].
  destruct i as [|i]; cbn.
  - by rewrite Hc.
  - destruct (first_match P c); [done|]. apply IH.
Qed.

(** Rewriting attributes the test does not look at does not change what a
    lookup finds. *)
Lemma first_match_set_attrs P f p n :
  (∀ a, P (f a) = P a) →
  first_match P (set_attrs f p n) = first_match P n.
Proof.
  intros HP. revert p.
  induction n as [ks IH|a ks IH] using node_ind'; intros [|i q].
  - done.
  - change (scan_children P (alter (set_attrs f q) i ks) 0 =
            scan_children P ks 0).
    by apply scan_children_alter.
  - change ((if P (f a) then Some [] else scan_children P ks 0) =
            (if P a then Some [] else scan_children P ks 0)).
    by rewrite HP.
  - change ((if P a then Some []
             else scan_children P (alter (set_attrs f q) i ks) 0) =
            (if P a then Some [] else scan_children P ks 0)).
    by rewrite scan_children_alter.
Qed.

Lemma filter_none {A} (P : A → Prop) `{∀ x, Decision (P x)} (l : list A) :
  (∀ x, x ∈ l → ¬ P x) → filter P l = [].
Proof.
  induction l as [|x l IH]; intros Hno; [done|].
  rewrite filter_cons_False by (apply Hno; left).
  apply IH. intros y Hy. apply Hno. by right.
Qed.

Lemma dispatch_no_listener e σ :
  (∀ r, r ∈ listeners σ → reg_type r ≠ type e) →
  dispatchEvent e σ = (σ, []).
Proof.
  intros Hty. unfold dispatchEvent.
  induction (propagation_path (target e)) as [|cur path IH]; [done|].
  cbn [foldl]. unfold visit at 2. cbn [fst].
  assert (filter (λ r, listens cur (type e) r) (listeners σ) = []) as ->.
  { apply filter_none. intros r Hr.
    unfold listens. rewrite (bool_decide_false (reg_type r = type e))
      by by apply Hty.
    rewrite andb_false_r. by intros []. }
  exact IH.
Qed.

Lemma script_dom ks ρ σ :
  script (fresh ks) = Normal ρ σ → dom σ = Document ks.
Proof.
  rewrite script_run.
  destruct (first_match _ (Document ks)) as [icon|]; [|done].
  cbn zeta. by intros [= <- <-].
Qed.

Lemma script_listeners ks ρ σ :
  script (fresh ks) = Normal ρ σ →
  ∃ icon, listeners σ = [Registration icon "click" (IconClick ρ);
                         Registration document "click" (DocumentClick ρ)].
Proof.
  rewrite script_run.
  destruct (first_match _ (Document ks)) as [icon|]; [|done].
  cbn zeta. intros [= <- <-]. by exists icon.
Qed.

(** X4.  On a page the script has bound, after any clicks, one more click
    is settled by where its target lies: through the icon it toggles the
    marker; off the icon but inside the navigation it changes nothing;
    outside both it removes the marker.  No error is reported. *)
Theorem click_by_target ks ρ σ0 icon nv ts t :
  script (fresh ks) = Normal ρ σ0 →
  menuIcon ρ = Some icon → nav ρ = Some nv →
  dispatchEvent (click t) (clicks ts σ0) =
    (if contains icon t then toggled "active" nv (clicks ts σ0)
     else if contains nv t then clicks ts σ0
     else removed "active" nv (clicks ts σ0), []).
Proof.
  intros Hrun Hicon Hnav.
  destruct (script_bound _ _ _ _ _ Hrun Hicon Hnav) as [Hb0 _].
  pose proof (bound_clicks _ _ _ ts _ Hb0) as Hb.
  rewrite (dispatch_click ρ icon nv) by done. unfold classify.
  destruct (contains icon t); [done|]. by destruct (contains nv t).
Qed.

Lemma click_by_target_witness :
  script (fresh Example.page_nodes) = Normal Example.ρ0 Example.σ0 ∧
  menuIcon Example.ρ0 = Some Example.icon_ref ∧
  nav Example.ρ0 = Some Example.nav_ref ∧
  dispatchEvent (click Example.link_ref)
    (clicks [Example.glyph_ref] Example.σ0) =
    (if contains Example.icon_ref Example.link_ref
     then toggled "active" Example.nav_ref
            (clicks [Example.glyph_ref] Example.σ0)
     else if contains Example.nav_ref Example.link_ref
     then clicks [Example.glyph_ref] Example.σ0
     else removed "active" Example.nav_ref
            (clicks [Example.glyph_ref] Example.σ0), []).
Proof.
  split; [vm_compute; reflexivity|]. split; [reflexivity|].
  split; [reflexivity|].
  apply (click_by_target Example.page_nodes Example.ρ0 Example.σ0
           Example.icon_ref Example.nav_ref);
    [vm_compute; reflexivity|reflexivity|reflexivity].
Defined.

(** X5.  The script listens for clicks only: once it has run, whether or
    not it found the navigation element, an event of any other type
    changes nothing and reports nothing, whatever its target and whatever
    clicks came before. *)
Theorem other_events_ignored ks ρ σ0 ts e :
  script (fresh ks) = Normal ρ σ0 →
  type e ≠ "click" →
  dispatchEvent e (clicks ts σ0) = (clicks ts σ0, []).
Proof.
  intros Hrun Hty. apply dispatch_no_listener. rewrite listeners_clicks.
  destruct (script_listeners ks ρ σ0 Hrun)
    as (icon & ->).
  intros r Hr.
  apply elem_of_cons in Hr as [->|Hr];
    [|apply list_elem_of_singleton in Hr as ->]; cbn; congruence.
Qed.

Lemma other_events_ignored_witness :
  script (fresh Example.page_nodes) = Normal Example.ρ0 Example.σ0 ∧
  type {| type := "keydown"; target := Example.icon_ref |} ≠ "click" ∧
  dispatchEvent {| type := "keydown"; target := Example.icon_ref |}
    (clicks [Example.icon_ref] Example.σ0) =
    (clicks [Example.icon_ref] Example.σ0, []).
Proof.
  split; [vm_compute; reflexivity|]. split; [discriminate|].
  apply (other_events_ignored Example.page_nodes Example.ρ0 Example.σ0);
    [vm_compute; reflexivity|discriminate].
Defined.

(** ** Toggling twice *)

Lemma classes_toggled_twice_absent tok n σ :
  is_Some (attrs_at (dom σ) n) →
  has_class σ n tok = false →
  classes_of (toggled tok n (toggled tok n σ)) n = classes_of σ n.
Proof.
  intros Hel Habs. unfold toggled.
  rewrite classes_of_put_classes by by apply is_Some_attrs_at_put_attrs.
  rewrite classes_of_put_classes by done.
  unfold has_class in Habs. unfold token_toggle at 2. rewrite Habs. cbn [snd].
  unfold token_toggle.
  assert (token_in tok (classes_of σ n ++ [tok]) = true) as ->.
  { apply token_in_true, elem_of_app. right. by apply list_elem_of_singleton. }
  cbn [snd]. rewrite token_remove_app. by apply token_remove_absent.
Qed.

Lemma classes_toggled_twice_present tok n σ :
  is_Some (attrs_at (dom σ) n) →
  has_class σ n tok = true →
  classes_of (toggled tok n (toggled tok n σ)) n =
    token_remove tok (classes_of σ n) ++ [tok].
Proof.
  intros Hel Hin. unfold toggled.
  rewrite classes_of_put_classes by by apply is_Some_attrs_at_put_attrs.
  rewrite classes_of_put_classes by done.
  unfold has_class in Hin. unfold token_toggle at 2. rewrite Hin. cbn [snd].
  unfold token_toggle. rewrite token_in_remove.
  rewrite bool_decide_true by done. by rewrite andb_false_r.
Qed.

(** X6.  Two clicks through the icon in a row cancel out when the menu was
    closed: the marker is absent again and the class tokens of the
    navigation element are the ones it had, in their order.  When the menu
    was open they leave it open with [active] moved to the end of the
    tokens, the others kept in their order. *)
Theorem two_icon_clicks ks ρ σ0 icon nv ts t1 t2 :
  script (fresh ks) = Normal ρ σ0 →
  menuIcon ρ = Some icon → nav ρ = Some nv →
  contains icon t1 = true → contains icon t2 = true →
  let σ := clicks ts σ0 in
  (marker ρ σ = false →
     marker ρ (clicks [t1; t2] σ) = false ∧
     classes_of (clicks [t1; t2] σ) nv = classes_of σ nv) ∧
  (marker ρ σ = true →
     marker ρ (clicks [t1; t2] σ) = true ∧
     classes_of (clicks [t1; t2] σ) nv =
       token_remove "active" (classes_of σ nv) ++ ["active"]).
Proof.
  intros Hrun Hicon Hnav Ht1 Ht2 σ.
  destruct (script_bound _ _ _ _ _ Hrun Hicon Hnav) as [Hb0 _].
  pose proof (bound_clicks _ _ _ ts _ Hb0) as Hb. fold σ in Hb.
  assert (clicks [t1; t2] σ = toggled "active" nv (toggled "active" nv σ))
    as ->.
  { unfold clicks. cbn [foldl].
    rewrite (dispatch_click ρ icon nv t1) by done.
    unfold classify. rewrite Ht1. cbn [fst].
    rewrite (dispatch_click ρ icon nv t2) by by apply bound_put_attrs.
    unfold classify. by rewrite Ht2. }
  assert (has_class (toggled "active" nv (toggled "active" nv σ)) nv "active"
          = has_class σ nv "active") as Hback.
  { rewrite has_class_toggled
      by (apply is_Some_attrs_at_put_attrs, Hb).
    rewrite has_class_toggled by apply Hb. apply negb_involutive. }
  unfold marker. rewrite Hnav, Hback. split; intros Hm.
  - split; [done|]. apply classes_toggled_twice_absent; [apply Hb|done].
  - split; [done|]. apply classes_toggled_twice_present; [apply Hb|done].
Qed.

Lemma two_icon_clicks_witness :
  script (fresh Example.page_nodes) = Normal Example.ρ0 Example.σ0 ∧
  menuIcon Example.ρ0 = Some Example.icon_ref ∧
  nav Example.ρ0 = Some Example.nav_ref ∧
  contains Example.icon_ref Example.icon_ref = true ∧
  contains Example.icon_ref Example.glyph_ref = true ∧
  let σ := clicks [Example.main_ref] Example.σ0 in
  (marker Example.ρ0 σ = false →
     marker Example.ρ0 (clicks [Example.icon_ref; Example.glyph_ref] σ)
       = false ∧
     classes_of (clicks [Example.icon_ref; Example.glyph_ref] σ)
       Example.nav_ref = classes_of σ Example.nav_ref) ∧
  (marker Example.ρ0 σ = true →
     marker Example.ρ0 (clicks [Example.icon_ref; Example.glyph_ref] σ)
       = true ∧
     classes_of (clicks [Example.icon_ref; Example.glyph_ref] σ)
       Example.nav_ref =
       token_remove "active" (classes_of σ Example.nav_ref) ++ ["active"]).
Proof.
  split; [vm_compute; reflexivity|]. split; [reflexivity|].
  split; [reflexivity|]. split; [vm_compute; reflexivity|].
  split; [vm_compute; reflexivity|].
  apply (two_icon_clicks Example.page_nodes Example.ρ0 Example.σ0
           Example.icon_ref Example.nav_ref [Example.main_ref]);
    [vm_compute; reflexivity|reflexivity|reflexivity
    |vm_compute; reflexivity..].
Defined.

(** ** Counting icon clicks *)

Lemma clicks_app ts1 ts2 σ : clicks (ts1 ++ ts2) σ = clicks ts2 (clicks ts1 σ).
Proof. unfold clicks. by rewrite foldl_app. Qed.

Lemma marker_clicks_undismissed ρ icon nv ts σ :
  bound ρ icon nv σ →
  Forall (λ t, ¬ dismisses icon nv t) ts →
  marker ρ (clicks ts σ) =
    xorb (marker ρ σ) (Nat.odd (length (through icon ts))).
Proof.
  intros Hb Hall. revert σ Hb.
  induction Hall as [|t ts Ht _ IH]; intros σ Hb.
  - cbn. by rewrite xorb_false_r.
  - change (clicks (t :: ts) σ)
      with (clicks ts (dispatchEvent (click t) σ).1).
    rewrite IH by by apply bound_dispatch_click.
    rewrite (marker_dispatch_click ρ icon nv) by done.
    unfold classify, through. destruct (contains icon t) eqn:Hic.
    + rewrite filter_cons_True by done. cbn [length].
      rewrite Nat.odd_succ, <- Nat.negb_odd.
      by destruct (marker ρ σ), (Nat.odd _).
    + rewrite filter_cons_False by by rewrite Hic.
      destruct (contains nv t) eqn:Hnv.
      * by destruct (marker ρ σ).
      * by destruct Ht.
Qed.

(** X7.  However the page started and whatever was clicked before, after
    an outside click the marker is present exactly when the number of
    clicks through the icon since that outside click is odd; clicks inside
    the navigation element do not count. *)
Theorem marker_counts_icon_clicks_since_dismissal
    ks ρ σ0 icon nv ts1 t ts2 :
  script (fresh ks) = Normal ρ σ0 →
  menuIcon ρ = Some icon → nav ρ = Some nv →
  dismisses icon nv t →
  Forall (λ t', ¬ dismisses icon nv t') ts2 →
  marker ρ (clicks (ts1 ++ t :: ts2) σ0) =
    Nat.odd (length (through icon ts2)).
Proof.
  intros Hrun Hicon Hnav [Hti Htn] Hall.
  destruct (script_bound _ _ _ _ _ Hrun Hicon Hnav) as [Hb0 _].
  pose proof (bound_clicks _ _ _ ts1 _ Hb0) as Hb1.
  rewrite clicks_app.
  change (clicks (t :: ts2) (clicks ts1 σ0))
    with (clicks ts2 (dispatchEvent (click t) (clicks ts1 σ0)).1).
  rewrite (marker_clicks_undismissed ρ icon nv)
    by (done || by apply bound_dispatch_click).
  rewrite (marker_dispatch_click ρ icon nv) by done.
  unfold classify. rewrite Hti, Htn. by destruct (marker ρ _).
Qed.

Lemma marker_counts_icon_clicks_since_dismissal_witness :
  script (fresh Example.page_nodes) = Normal Example.ρ0 Example.σ0 ∧
  menuIcon Example.ρ0 = Some Example.icon_ref ∧
  nav Example.ρ0 = Some Example.nav_ref ∧
  dismisses Example.icon_ref Example.nav_ref Example.main_ref ∧
  Forall (λ t', ¬ dismisses Example.icon_ref Example.nav_ref t')
    [Example.glyph_ref; Example.link_ref; Example.icon_ref;
     Example.icon_ref] ∧
  marker Example.ρ0
    (clicks ([Example.icon_ref] ++ Example.main_ref ::
             [Example.glyph_ref; Example.link_ref; Example.icon_ref;
              Example.icon_ref]) Example.σ0) =
    Nat.odd (length (through Example.icon_ref
                       [Example.glyph_ref; Example.link_ref;
                        Example.icon_ref; Example.icon_ref])).
Proof.
  assert (Forall (λ t', ¬ dismisses Example.icon_ref Example.nav_ref t')
            [Example.glyph_ref; Example.link_ref; Example.icon_ref;
             Example.icon_ref]) as Hall.
  { repeat constructor; intros [Hi Hn]; vm_compute in Hi, Hn;
      discriminate. }
  assert (dismisses Example.icon_ref Example.nav_ref Example.main_ref)
    as Hout by (split; vm_compute; reflexivity).
  split; [vm_compute; reflexivity|]. split; [reflexivity|].
  split; [reflexivity|]. split; [exact Hout|]. split; [exact Hall|].
  apply (marker_counts_icon_clicks_since_dismissal Example.page_nodes
           Example.ρ0 Example.σ0 Example.icon_ref Example.nav_ref);
    [vm_compute; reflexivity|reflexivity|reflexivity|exact Hout|exact Hall].
Defined.

(** X8.  The document handler is idempotent outright: run a second time on
    the same event it changes nothing the first run left, in every state
    of the page, wherever the target lies and whatever the two constants
    hold; and its second run completes the way the first did. *)
Theorem document_handler_idempotent ρ e σ :
  handle (onDocumentActivate ρ) (handle (onDocumentActivate ρ) σ e) e =
    handle (onDocumentActivate ρ) σ e ∧
  ((∃ σ', onDocumentActivate ρ e σ = Normal tt σ') →
   ∃ σ'', onDocumentActivate ρ e (handle (onDocumentActivate ρ) σ e)
            = Normal tt σ'').
Proof.
  split; [apply onDocumentActivate_idempotent|].
  intros [σ' Hrun]. unfold handle. rewrite Hrun. cbn [final].
  revert Hrun.
  unfold onDocumentActivate, classList_remove, get_classList.
  destruct (nav ρ) as [n|]; [|done].
  unfold mbind, js_bind, bind. cbn.
  destruct (contains n (target e)); cbn; [by eauto|].
  destruct (menuIcon ρ) as [m|]; cbn; [|done].
  destruct (contains m (target e)); cbn; [by eauto|].
  destruct (attrs_at (dom σ) n) as [a|] eqn:Ha; cbn; [|done].
  intros [= <-].
  assert (is_Some (attrs_at (dom (put_attrs
            (with_classes (token_remove "active")) n σ)) n)) as [b Hb].
  { apply is_Some_attrs_at_put_attrs. by eexists. }
  rewrite Hb. by eauto.
Qed.

(** X9.  No click changes what the two lookups of the script would find:
    after any clicks, looking the icon and the navigation element up again
    gives the references the script holds. *)
Theorem lookups_stable_under_clicks ks ρ σ0 ts :
  script (fresh ks) = Normal ρ σ0 →
  getElementById "menu-icon" (clicks ts σ0) =
    Normal (menuIcon ρ) (clicks ts σ0) ∧
  querySelector "nav" (clicks ts σ0) = Normal (nav ρ) (clicks ts σ0).
Proof.
  intros Hrun. destruct (script_constants _ _ _ Hrun) as [-> ->].
  pose proof (script_dom _ _ _ Hrun) as Hdom.
  unfold getElementById, querySelector. rewrite <- Hdom.
  split; f_equal.
  - apply (clicks_preserve
             (λ σ, first_match (λ a, bool_decide (id_attr a = "menu-icon"))
                     (dom σ))).
    intros g n σ. by apply first_match_set_attrs.
  - apply (clicks_preserve
             (λ σ, first_match (λ a, bool_decide (localName a = "nav"))
                     (dom σ))).
    intros g n σ. by apply first_match_set_attrs.
Qed.

Lemma lookups_stable_under_clicks_witness :
  script (fresh Example.page_nodes) = Normal Example.ρ0 Example.σ0 ∧
  getElementById "menu-icon"
    (clicks [Example.icon_ref; Example.main_ref] Example.σ0) =
    Normal (menuIcon Example.ρ0)
      (clicks [Example.icon_ref; Example.main_ref] Example.σ0) ∧
  querySelector "nav"
    (clicks [Example.icon_ref; Example.main_ref] Example.σ0) =
    Normal (nav Example.ρ0)
      (clicks [Example.icon_ref; Example.main_ref] Example.σ0).
Proof.
  split; [vm_compute; reflexivity|].
  apply (lookups_stable_under_clicks Example.page_nodes Example.ρ0
           Example.σ0).
  vm_compute. reflexivity.
Defined.

(** ** Dispatch when a handler may throw *)

Section registered.
Context (ρ : env) (icon : ref).

Let icon_reg := Registration icon "click" (IconClick ρ).
Let doc_reg := Registration document "click" (DocumentClick ρ).

Lemma listeners_invoke e acc r :
  listeners (invoke e acc r).1 = listeners acc.1.
Proof. rewrite invoke_fst. by apply (call_preserves listeners). Qed.

Lemma visit_click_registered e acc cur :
  listeners acc.1 = [icon_reg; doc_reg] → icon ≠ document →
  type e = "click" →
  visit e acc cur =
    if decide (cur = icon) then invoke e acc icon_reg
    else if decide (cur = document) then invoke e acc doc_reg
    else acc.
Proof.
  intros Hls Hid Hty. unfold visit. rewrite Hls.
  unfold listens. cbn. rewrite Hty.
  rewrite !(bool_decide_true ("click" = "click")) by done.
  rewrite !andb_true_r. unfold document in *.
  repeat case_decide; simplify_eq; cbn;
    repeat (first [rewrite bool_decide_true by done
                  |rewrite bool_decide_false by done]); by cbn.
Qed.

Lemma visit_above_registered e acc path :
  listeners acc.1 = [icon_reg; doc_reg] → icon ≠ document →
  type e = "click" → NoDup path → document ∉ path →
  foldl (visit e) acc path =
    if bool_decide (icon ∈ path) then invoke e acc icon_reg else acc.
Proof.
  intros Hls Hid Hty Hnd Hdoc. revert acc Hls.
  induction Hnd as [|cur path Hcur Hnd IH]; intros acc Hls; [done|].
  apply not_elem_of_cons in Hdoc as [Hne Hdoc].
  cbn [foldl]. rewrite visit_click_registered by done.
  destruct (decide (cur = icon)) as [->|Hci].
  - rewrite bool_decide_true by left.
    rewrite IH, bool_decide_false; [done..|].
    by rewrite listeners_invoke.
  - rewrite decide_False by done. rewrite IH by done.
    destruct (decide (icon ∈ path)) as [Hin|Hnin].
    + rewrite !bool_decide_true; [done|by right|done].
    + rewrite !bool_decide_false; [done| |done].
      rewrite elem_of_cons. intros [?|?]; by simplify_eq.
Qed.

(** A click runs the icon's listener if it bubbles through the icon, and
    then the document's, whether or not they complete. *)
Lemma dispatch_click_registered t σ :
  listeners σ = [icon_reg; doc_reg] → icon ≠ document →
  dispatchEvent (click t) σ =
    invoke (click t)
      (if contains icon t then invoke (click t) (σ, []) icon_reg
       else (σ, []))
      doc_reg.
Proof.
  intros Hls Hid. unfold dispatchEvent, propagation_path.
  cbn [target click].
  pose proof (NoDup_prefixes t) as Hnd.
  pose proof (elem_of_prefixes icon t) as Hin.
  destruct (prefixes_head t) as [tl Htl]. rewrite Htl in *.
  apply NoDup_cons in Hnd as [Hdoc Hnd].
  rewrite reverse_cons, foldl_app. cbn [foldl].
  rewrite visit_above_registered;
    [|done|done|done|by rewrite reverse_Permutation
     |by rewrite elem_of_reverse].
  unfold document in Hid. rewrite elem_of_cons in Hin.
  case_bool_decide as Hmem; rewrite elem_of_reverse in Hmem.
  - assert (contains icon t = true) as ->.
    { apply bool_decide_eq_true, Hin. by right. }
    rewrite visit_click_registered;
      [|by rewrite listeners_invoke|done|done].
    rewrite decide_False by done. by rewrite decide_True.
  - assert (contains icon t = false) as ->.
    { apply bool_decide_eq_false. rewrite <- Hin. by intros [?|?]. }
    rewrite visit_click_registered by done.
    rewrite decide_False by done. by rewrite decide_True.
Qed.
End registered.

(** X10.  When the script found the icon but no navigation element, every
    click leaves the page as the script left it and is reported as a
    failure once for each handler it reached: twice when it bubbles
    through the icon, once otherwise. *)
Theorem clicks_without_navigation ks ρ σ0 icon ts t :
  script (fresh ks) = Normal ρ σ0 →
  menuIcon ρ = Some icon → nav ρ = None →
  dispatchEvent (click t) (clicks ts σ0) =
    (σ0, if contains icon t then [TypeError; TypeError] else [TypeError]).
Proof.
  intros Hrun Hicon Hnav.
  destruct (script_listeners _ _ _ Hrun) as [icon' Hls].
  pose proof (script_dom _ _ _ Hrun) as Hdom.
  destruct (script_constants _ _ _ Hrun) as [Hfound _].
  rewrite Hicon in Hfound. symmetry in Hfound.
  destruct (first_match_Some _ _ _ Hfound) as (a & Ha & _).
  assert (icon ≠ document) as Hid.
  { intros ->. unfold attrs_at in Ha. by cbn in Ha. }
  assert (icon' = icon) as ->.
  { rewrite script_run, Hfound in Hrun. cbn zeta in Hrun.
    apply (f_equal final) in Hrun. cbn [final] in Hrun.
    rewrite <- Hrun in Hls. cbn [listeners] in Hls. congruence. }
  assert (clicks ts σ0 = σ0) as Hfix.
  { induction ts as [|t' ts IH]; [done|].
    unfold clicks in *. cbn [foldl]. rewrite dispatch_inert; [exact IH|].
    rewrite Hls. intros r Hr σ'.
    apply elem_of_cons in Hr as [->|Hr];
      [|apply list_elem_of_singleton in Hr as ->]; cbn [reg_callback call].
    - by rewrite onIconActivate_null.
    - by rewrite onDocumentActivate_null. }
  rewrite Hfix.
  rewrite (dispatch_click_registered ρ icon) by done.
  unfold invoke. cbn [reg_callback call fst snd].
  destruct (contains icon t); cbn [fst snd];
    rewrite ?onIconActivate_null by done; cbn [fst snd];
    by rewrite onDocumentActivate_null by done.
Qed.

Lemma clicks_without_navigation_witness :
  script (fresh NoNav.nodes) = Normal NoNav.ρ1 NoNav.σ1 ∧
  menuIcon NoNav.ρ1 = Some NoNav.icon_ref ∧
  nav NoNav.ρ1 = None ∧
  dispatchEvent (click NoNav.glyph_ref) (clicks [NoNav.icon_ref] NoNav.σ1) =
    (NoNav.σ1,
     if contains NoNav.icon_ref NoNav.glyph_ref
     then [TypeError; TypeError] else [TypeError]).
Proof.
  split; [vm_compute; reflexivity|]. split; [reflexivity|].
  split; [reflexivity|].
  apply (clicks_without_navigation NoNav.nodes NoNav.ρ1 NoNav.σ1
           NoNav.icon_ref);
    [vm_compute; reflexivity|reflexivity|reflexivity].
Defined.

(** ** The frame, over sequences of clicks *)

Lemma same_elsewhere_trans n σ1 σ2 σ3 :
  same_elsewhere n σ1 σ2 → same_elsewhere n σ2 σ3 → same_elsewhere n σ1 σ3.
Proof.
  intros (Hl1 & Ha1 & Hs1) (Hl2 & Ha2 & Hs2). split_and!.
  - congruence.
  - intros q Hq. by rewrite Ha2, Ha1.
  - intros q Hq. by rewrite Hs2, Hs1.
Qed.

Lemma same_but_token_trans tok n σ1 σ2 σ3 :
  same_but_token tok n σ1 σ2 → same_but_token tok n σ2 σ3 →
  same_but_token tok n σ1 σ3.
Proof.
  intros (Ht1 & Hi1 & Ho1 & Hc1) (Ht2 & Hi2 & Ho2 & Hc2). split_and!.
  - congruence.
  - congruence.
  - congruence.
  - intros t Ht. by rewrite Hc2, Hc1.
Qed.

Lemma same_dispatch_click ρ icon nv t σ :
  bound ρ icon nv σ →
  same_elsewhere nv σ (dispatchEvent (click t) σ).1 ∧
  same_but_token "active" nv σ (dispatchEvent (click t) σ).1.
Proof.
  intros Hb. rewrite (dispatch_click ρ icon nv) by done. cbn [fst].
  destruct (classify icon nv t).
  - apply same_put_classes. intros cs. apply token_toggle_others.
  - apply same_put_classes. intros cs. apply token_remove_idemp.
  - apply same_refl.
Qed.

(** X11.  However many clicks are made and wherever, the page differs from
    the one the script ran on in nothing but the presence of [active]
    among the navigation element's classes: that element keeps its tag,
    its id and its other classes in their order, every other node keeps
    its attributes, every subtree that does not hold the navigation
    element is untouched, and the two listeners stay as registered. *)
Theorem clicks_change_only_the_marker ks ρ σ0 icon nv ts :
  script (fresh ks) = Normal ρ σ0 →
  menuIcon ρ = Some icon → nav ρ = Some nv →
  same_elsewhere nv σ0 (clicks ts σ0) ∧
  same_but_token "active" nv σ0 (clicks ts σ0).
Proof.
  intros Hrun Hicon Hnav.
  destruct (script_bound _ _ _ _ _ Hrun Hicon Hnav) as [Hb0 _].
  clear Hrun. revert Hb0. generalize σ0. clear σ0.
  induction ts as [|t ts IH]; intros σ Hb; [apply same_refl|].
  change (clicks (t :: ts) σ) with (clicks ts (dispatchEvent (click t) σ).1).
  destruct (same_dispatch_click ρ icon nv t σ Hb) as [He Ht].
  destruct (IH _ (bound_dispatch_click _ _ _ t _ Hb)) as [He' Ht'].
  split.
  - by eapply same_elsewhere_trans.
  - by eapply same_but_token_trans.
Qed.

Lemma clicks_change_only_the_marker_witness :
  script (fresh Example.page_nodes) = Normal Example.ρ0 Example.σ0 ∧
  menuIcon Example.ρ0 = Some Example.icon_ref ∧
  nav Example.ρ0 = Some Example.nav_ref ∧
  same_elsewhere Example.nav_ref Example.σ0
    (clicks [Example.icon_ref; Example.link_ref; Example.main_ref]
       Example.σ0) ∧
  same_but_token "active" Example.nav_ref Example.σ0
    (clicks [Example.icon_ref; Example.link_ref; Example.main_ref]
       Example.σ0).
Proof.
  split; [vm_compute; reflexivity|]. split; [reflexivity|].
  split; [reflexivity|].
  apply (clicks_change_only_the_marker Example.page_nodes Example.ρ0
           Example.σ0 Example.icon_ref Example.nav_ref);
    [vm_compute; reflexivity|reflexivity|reflexivity].
Defined.
